(** * BuildProfilerPlugin: a shallow embedding of [src/BuildProfilerPlugin.ts]

    The plugin is a closure over four containers and three numbers; the
    four Vite hooks it returns ([buildStart], [transform], [moduleParsed],
    [closeBundle]) read and update them.  Here the closure's variables are a
    record, every hook is a function from that record to the new record and
    the list of lines it hands to [console.log], and every reading of
    [performance.now()] is an argument of the hook that takes it.

    Modelling choices, each local to the place where it is made:
    - strings are [string]s of bytes; the separators the code splits on are
      ASCII, so splitting the UTF-8 bytes splits where JavaScript splits;
    - clock readings and durations are integers ([Z]), subtraction is exact;
    - a quotient is a [jsnum]: an exact rational, or one of the IEEE specials
      that a zero denominator produces;
    - [console.log] lines are structured [event]s carrying the interpolated
      values instead of formatted text ([toFixed] is not modelled);
    - none of the hook bodies can throw on strings and numbers, so the
      [try]/[catch] wrappers never reach their handlers and are left out. *)

From Stdlib Require Import QArith Sorted Ascii.
From stdpp Require Import base strings pretty gmap sets list sorting.

Close Scope Q_scope.
Set Warnings "-clear-no-such-hyp".
Open Scope string_scope.
Open Scope list_scope.
Open Scope nat_scope.

(** ** JavaScript string primitives used by the plugin *)

Module JsString.

(** [s.startsWith(pre)] *)
Fixpoint starts_with (pre s : string) : bool :=
  match pre, s with
  | EmptyString, _ => true
  | String _ _, EmptyString => false
  | String a pre', String b s' => if Ascii.eqb a b then starts_with pre' s' else false
  end.

(** [s.split(sep)] for a non-empty separator [sep]: the pieces between the
    successive non-overlapping occurrences of [sep], scanning from the left.
    [skip] counts the characters of a separator that was just matched and
    that are still to be dropped. *)
Fixpoint split_go (sep : string) (skip : nat) (s : string) : list string :=
  match s with
  | EmptyString => [EmptyString]
  | String c s' =>
      match skip with
      | S k => split_go sep k s'
      | O =>
          if starts_with sep s
          then EmptyString :: split_go sep (String.length sep - 1) s'
          else match split_go sep 0 s' with
               | piece :: pieces => String c piece :: pieces
               | [] => [String c EmptyString]
               end
      end
  end.

Definition split (sep s : string) : list string := split_go sep 0 s.

(** [pieces.join(glue)] *)
Definition join (glue : string) (pieces : list string) : string :=
  String.concat glue pieces.

(** [s.includes(needle)] *)
Fixpoint includes (needle s : string) : bool :=
  starts_with needle s ||
  match s with
  | EmptyString => false
  | String _ s' => includes needle s'
  end.

(** [a || b] on values that are a string or [undefined]: [undefined] and the
    empty string are falsy. *)
Definition truthy (o : option string) : bool :=
  match o with
  | Some (String _ _) => true
  | _ => false
  end.

Definition or_else (o : option string) (alt : option string) : option string :=
  if truthy o then o else alt.

End JsString.

(** ** Node's [path.sep] *)

(** The plugin imports [path] from Node; [path.sep] is ["\\"] on Windows and
    ["/"] on POSIX systems. *)
Inductive platform := posix | win32.

Definition path_sep (p : platform) : string :=
  match p with
  | posix => "/"
  | win32 => "\"
  end.

Section Normalisation.
Variable p : platform.

(** [normalizePath], lines 15-20. [split] never returns an empty array, so
    the default of [hd] is not reached. *)
Definition normalizePath (id : string) : string :=
  let cleanId := hd EmptyString (JsString.split "?" id) in
  JsString.join "/" (JsString.split (path_sep p) cleanId).

(** [getShortId], lines 23-28. *)
Definition getShortId (id : string) : string :=
  let normalizedId := normalizePath id in
  default normalizedId
    (JsString.or_else (JsString.split "/src/" normalizedId !! 1%nat)
       (JsString.or_else (JsString.split "/node_modules/" normalizedId !! 1%nat)
          (Some normalizedId))).
End Normalisation.


(** ** Numbers *)

(** The value of a JavaScript arithmetic expression whose operands are
    integers: a rational, or what IEEE 754 gives for a zero denominator.
    Rounding and the sign of zero are not modelled. *)
Inductive jsnum :=
| Finite (q : Q)
| NaN
| Infinity (negative : bool).

Module JsNum.

Definition of_Z (z : Z) : jsnum := Finite (inject_Z z).
Definition of_nat (n : nat) : jsnum := of_Z (Z.of_nat n).

Definition is_zero (q : Q) : bool := (Qnum q =? 0)%Z.
Definition is_neg (q : Q) : bool := (Qnum q <? 0)%Z.

(** [a / b] *)
Definition div (a b : jsnum) : jsnum :=
  match a, b with
  | NaN, _ | _, NaN => NaN
  | Finite x, Finite y =>
      if is_zero y then (if is_zero x then NaN else Infinity (is_neg x))
      else Finite (x / y)%Q
  | Finite _, Infinity _ => Finite 0%Q
  | Infinity s, Finite y => Infinity (xorb s (is_neg y))
  | Infinity _, Infinity _ => NaN
  end.

(** [a * b] *)
Definition mul (a b : jsnum) : jsnum :=
  match a, b with
  | NaN, _ | _, NaN => NaN
  | Finite x, Finite y => Finite (x * y)%Q
  | Finite x, Infinity s | Infinity s, Finite x =>
      if is_zero x then NaN else Infinity (xorb s (is_neg x))
  | Infinity s, Infinity s' => Infinity (xorb s s')
  end.

Definition finite (a : jsnum) : Prop :=
  match a with
  | Finite _ => True
  | _ => False
  end.

End JsNum.

(** ** Containers *)

(** A JavaScript [Map] with string keys whose iteration order is observed:
    the entries in insertion order.  [set] on a present key replaces the value
    where the key is, on an absent key it appends. *)
Module JsMap.
Section Ops.
Context {V : Type}.

Fixpoint get (k : string) (m : list (string * V)) : option V :=
  match m with
  | [] => None
  | (k', v) :: m' => if String.eqb k' k then Some v else get k m'
  end.

Fixpoint set (k : string) (v : V) (m : list (string * V)) : list (string * V) :=
  match m with
  | [] => [(k, v)]
  | (k', v') :: m' =>
      if String.eqb k' k then (k', v) :: m' else (k', v') :: set k v m'
  end.

Definition size (m : list (string * V)) : nat := length m.
Definition keys (m : list (string * V)) : list string := m.*1.
Definition values (m : list (string * V)) : list V := m.*2.
End Ops.
End JsMap.

(** [arr.sort((a, b) => key(b) - key(a))]: descending by [key].  The sort of
    an array is stable, and the comparator is a consistent ordering on
    integers, so the result is the one a stable insertion sort gives. *)
Section SortDesc.
Context {A : Type} (key : A → Z).

Fixpoint insert_desc (x : A) (l : list A) : list A :=
  match l with
  | [] => [x]
  | y :: l' => if (key x <? key y)%Z then y :: insert_desc x l' else x :: l
  end.

Definition sort_desc (l : list A) : list A := foldr insert_desc [] l.

(** The order the sort establishes between an element and a later one. *)
Definition descending : relation A := λ a b, (key b ≤ key a)%Z.
End SortDesc.

(** ** The plugin's state *)

(** An element of [slowModules], [{ id, time }]. *)
Record slowModule := SlowModule { sm_id : string; sm_time : Z }.

(** A value of [dirStats], [{ count, time }]. *)
Record dirStat := DirStat { ds_count : nat; ds_time : Z }.

(** The variables the hooks close over, lines 5-12. [startTimes] and
    [processedIds] are only looked up, updated and cleared, so their
    iteration order is not part of the model. *)
Record profiler := Profiler {
  moduleTransformTimes : list (string * Z);
  slowModules : list slowModule;
  startTimes : gmap string Z;
  processedIds : gset string;
  totalModules : nat;
  processedModules : nat;
  buildStartTime : Z
}.

(** The state when [buildProfilerPlugin()] returns. *)
Definition init : profiler :=
  {| moduleTransformTimes := [];
     slowModules := [];
     startTimes := ∅;
     processedIds := ∅;
     totalModules := 0;
     processedModules := 0;
     buildStartTime := 0 |}.

(** The [console.log] calls, one constructor per message or block of
    messages, with the values they interpolate. *)
Inductive event :=
| LogStarted
| LogModuleCount (total : nat)
| LogSlowModule (shortId : string) (duration : Z)
| LogProgress (progress : jsnum) (processed total : nat)
    (elapsedTime estimatedRemainingTime : jsnum) (timed slow : nat)
| LogReportHeader
| LogNoData
| LogSlowest (rows : list (Z * string))
| LogDirStats (rows : list (string * nat * jsnum))
| LogSummary (total slow : nat) (totalSeconds average : jsnum).

(** The fallback bucket of the per-directory statistics, line 130. *)
Definition project_source : string := "项目源码".

(** ** The hooks *)

Section Hooks.
Variable p : platform.

(** [buildStart], lines 34-48. *)
Definition buildStart (now : Z) (st : profiler) : profiler * list event :=
  ({| moduleTransformTimes := [];
      slowModules := [];
      startTimes := ∅;
      processedIds := ∅;
      totalModules := 0;
      processedModules := 0;
      buildStartTime := now |},
   [LogStarted]).

(** [transform], lines 50-71. *)
Definition transform (id : string) (now : Z) (st : profiler) : profiler * list event :=
  let normalizedId := normalizePath p id in
  let fresh := negb (bool_decide (normalizedId ∈ processedIds st)) in
  let ids := if fresh then {[normalizedId]} ∪ processedIds st else processedIds st in
  let total := if fresh then S (totalModules st) else totalModules st in
  let log :=
    if fresh && negb (JsString.includes "node_modules" normalizedId)
    then [LogModuleCount total] else [] in
  ({| moduleTransformTimes := moduleTransformTimes st;
      slowModules := slowModules st;
      startTimes := <[normalizedId := now]> (startTimes st);
      processedIds := ids;
      totalModules := total;
      processedModules := processedModules st;
      buildStartTime := buildStartTime st |},
   log).

(** The progress message of [moduleParsed], lines 90-102, once the counters
    are updated; [now] is the clock reading of line 92. *)
Definition progress (processed total : nat) (now start : Z) (timed slow : nat) : list event :=
  if (processed mod 100 =? 0)%nat || (processed =? total)%nat then
    let progress := JsNum.mul (JsNum.div (JsNum.of_nat processed) (JsNum.of_nat total))
                      (JsNum.of_Z 100) in
    let elapsedTime := JsNum.div (JsNum.of_Z (now - start)) (JsNum.of_Z 1000) in
    let avgTimePerModule := JsNum.div elapsedTime (JsNum.of_nat processed) in
    let remainingModules := (Z.of_nat total - Z.of_nat processed)%Z in
    let estimatedRemainingTime := JsNum.mul (JsNum.of_Z remainingModules) avgTimePerModule in
    [LogProgress progress processed total elapsedTime estimatedRemainingTime timed slow]
  else [].

(** [moduleParsed], lines 73-109. [now] is the clock reading of line 79 and
    [now2] the one of line 92.  [!startTime] holds for [undefined] and for
    the number 0. *)
Definition moduleParsed (id : string) (now now2 : Z) (st : profiler) : profiler * list event :=
  let normalizedId := normalizePath p id in
  match startTimes st !! normalizedId with
  | None => (st, [])
  | Some startTime =>
      if (startTime =? 0)%Z then (st, [])
      else
        let duration := (now - startTime)%Z in
        let times := JsMap.set normalizedId duration (moduleTransformTimes st) in
        let processed := S (processedModules st) in
        let is_slow := (200 <? duration)%Z in
        let slow :=
          if is_slow then slowModules st ++ [SlowModule normalizedId duration]
          else slowModules st in
        let log :=
          if is_slow then [LogSlowModule (getShortId p normalizedId) duration] else [] in
        ({| moduleTransformTimes := times;
            slowModules := slow;
            startTimes := delete normalizedId (startTimes st);
            processedIds := processedIds st;
            totalModules := totalModules st;
            processedModules := processed;
            buildStartTime := buildStartTime st |},
         log ++ progress processed (totalModules st) now2 (buildStartTime st)
                  (JsMap.size times) (length slow))
  end.

(** The bucket of a module id, line 130. *)
Definition bucket (id : string) : string :=
  let first :=
    match JsString.split "/node_modules/" id !! 1%nat with
    | None => None
    | Some rest => Some (hd EmptyString (JsString.split "/" rest))
    end in
  default project_source (JsString.or_else first (Some project_source)).

(** The loop body of lines 129-136. *)
Definition add_stat (stats : list (string * dirStat)) (entry : string * Z) :=
  let dir := bucket entry.1 in
  let stat := default (DirStat 0 0) (JsMap.get dir stats) in
  JsMap.set dir (DirStat (ds_count stat + 1) (ds_time stat + entry.2)) stats.

(** [closeBundle], lines 111-156. *)
Definition closeBundle (st : profiler) : profiler * list event :=
  if (length (slowModules st) =? 0)%nat then (st, [LogReportHeader; LogNoData])
  else
    let sorted := sort_desc sm_time (slowModules st) in
    let slowest := (λ m, (sm_time m, getShortId p (sm_id m))) <$> take 10 sorted in
    let dirStats := foldl add_stat [] (moduleTransformTimes st) in
    let rows :=
      (λ e : string * dirStat,
         (e.1, ds_count e.2, JsNum.div (JsNum.of_Z (ds_time e.2)) (JsNum.of_Z 1000)))
        <$> take 10 (sort_desc (λ e : string * dirStat, ds_time e.2) dirStats) in
    let totalTime := foldl Z.add 0%Z (JsMap.values (moduleTransformTimes st)) in
    ({| moduleTransformTimes := moduleTransformTimes st;
        slowModules := sorted;
        startTimes := startTimes st;
        processedIds := processedIds st;
        totalModules := totalModules st;
        processedModules := processedModules st;
        buildStartTime := buildStartTime st |},
     [LogReportHeader;
      LogSlowest slowest;
      LogDirStats rows;
      LogSummary (totalModules st) (length sorted)
        (JsNum.div (JsNum.of_Z totalTime) (JsNum.of_Z 1000))
        (JsNum.div (JsNum.of_Z totalTime) (JsNum.of_nat (totalModules st)))]).

(** ** Sequences of hook calls *)

(** One invocation of a hook by the host, with the clock readings it takes. *)
Inductive call :=
| BuildStart (now : Z)
| Transform (id : string) (now : Z)
| ModuleParsed (id : string) (now now2 : Z)
| CloseBundle.

Definition step (c : call) (st : profiler) : profiler * list event :=
  match c with
  | BuildStart now => buildStart now st
  | Transform id now => transform id now st
  | ModuleParsed id now now2 => moduleParsed id now now2 st
  | CloseBundle => closeBundle st
  end.

(** The state and the log after the calls [cs], made in order from [st]. *)
Fixpoint run (cs : list call) (st : profiler) : profiler * list event :=
  match cs with
  | [] => (st, [])
  | c :: cs' =>
      let r1 := step c st in
      let r2 := run cs' r1.1 in
      (r2.1, r1.2 ++ r2.2)
  end.

Definition exec (cs : list call) (st : profiler) : profiler := (run cs st).1.
Definition output (cs : list call) (st : profiler) : list event := (run cs st).2.
End Hooks.

Arguments buildStart : simpl never.
Arguments transform : simpl never.
Arguments moduleParsed : simpl never.
Arguments closeBundle : simpl never.

(** ** Vocabulary of the properties *)

(** The completion counts at which a progress message was printed. *)
Definition progress_counts (log : list event) : list nat :=
  omap (λ e, match e with
             | LogProgress _ processed _ _ _ _ _ => Some processed
             | _ => None
             end) log.

(** Every number a message interpolates is an ordinary number. *)
Definition all_finite (e : event) : Prop :=
  match e with
  | LogProgress progress _ _ elapsedTime estimatedRemainingTime _ _ =>
      JsNum.finite progress ∧ JsNum.finite elapsedTime ∧
      JsNum.finite estimatedRemainingTime
  | LogDirStats rows => Forall (λ r : string * nat * jsnum, JsNum.finite r.2) rows
  | LogSummary _ _ totalSeconds average =>
      JsNum.finite totalSeconds ∧ JsNum.finite average
  | _ => True
  end.

(** The messages whose values divide by a counter are the progress message
    (lines 91 and 93) and the summary (line 152): the counters they divide by
    are positive, and are the counters of the state [st] the call leaves. *)
Definition denominators_positive (st : profiler) (e : event) : Prop :=
  match e with
  | LogProgress _ processed total _ _ _ _ =>
      processed = processedModules st ∧ total = totalModules st ∧
      0 < processed ∧ 0 < total
  | LogSummary total _ _ _ =>
      total = totalModules st ∧ 0 < total ∧ 0 < processedModules st
  | _ => True
  end.

(** The part of [s] before its first [c], and [s] with every [c] replaced by
    [d]: what [normalizePath] computes, said directly. *)
Fixpoint before (c : ascii) (s : string) : string :=
  match s with
  | EmptyString => EmptyString
  | String a s' => if Ascii.eqb a c then EmptyString else String a (before c s')
  end.

Fixpoint replace (c d : ascii) (s : string) : string :=
  match s with
  | EmptyString => EmptyString
  | String a s' => String (if Ascii.eqb a c then d else a) (replace c d s')
  end.

Definition sep_char (p : platform) : ascii :=
  match p with
  | posix => "/"%char
  | win32 => "\"%char
  end.

Section Completions.
Variable p : platform.

(** Does [moduleParsed id] record a duration in [st]? *)
Definition records (id : string) (st : profiler) : bool :=
  match startTimes st !! normalizePath p id with
  | Some startTime => negb (startTime =? 0)%Z
  | None => false
  end.

(** The keys of the completions recorded since the last [buildStart], in
    order, when the calls [cs] are made from [st] and [ks] lists the
    ones recorded before. *)
Fixpoint completions (cs : list call) (st : profiler) (ks : list string) : list string :=
  match cs with
  | [] => ks
  | c :: cs' =>
      completions cs' (step p c st).1
        match c with
        | BuildStart _ => []
        | ModuleParsed id _ _ =>
            if records id st then ks ++ [normalizePath p id] else ks
        | _ => ks
        end
  end.
End Completions.

(** A unit of the build with the clock readings of its two hooks. *)
Record timedUnit := TimedUnit {
  u_id : string;
  u_start : Z;
  u_done : Z;
  u_done2 : Z
}.

(** The units [/src/m0.ts], [/src/m1.ts], ... of a sample build: unit [i]
    starts at clock reading [1 + i] and completes 100 ms later. *)
Definition sample_units (n : nat) : list timedUnit :=
  (λ i, TimedUnit ("/src/m" +:+ pretty i +:+ ".ts")
          (1 + Z.of_nat i) (101 + Z.of_nat i) (101 + Z.of_nat i)) <$> seq 0 n.

Definition key_of (p : platform) (u : timedUnit) : string := normalizePath p (u_id u).
Definition start_of (u : timedUnit) : call := Transform (u_id u) (u_start u).
Definition completion_of (u : timedUnit) : call :=
  ModuleParsed (u_id u) (u_done u) (u_done2 u).

(** What holds of the state whatever the hooks did so far. *)
Record consistent (st : profiler) : Prop := {
  total_is_size : totalModules st = size (processedIds st);
  pending_known : dom (startTimes st) ⊆ processedIds st;
  timed_known : ∀ k, k ∈ JsMap.keys (moduleTransformTimes st) → k ∈ processedIds st;
  timed_distinct : NoDup (JsMap.keys (moduleTransformTimes st));
  timed_counted : JsMap.size (moduleTransformTimes st) ≤ processedModules st;
  slow_counted : slowModules st ≠ [] → 0 < processedModules st;
  counted_known : 0 < processedModules st → 0 < totalModules st
}.

(** [ks] lists the completions recorded in [st]. *)
Record tracks (st : profiler) (ks : list string) : Prop := {
  tracks_count : processedModules st = length ks;
  tracks_keys : ∀ k, k ∈ JsMap.keys (moduleTransformTimes st) ↔ k ∈ ks
}.

(** The clock readings a call takes, in the order it takes them. *)
Definition readings (c : call) : list Z :=
  match c with
  | BuildStart now | Transform _ now => [now]
  | ModuleParsed _ now now2 => [now; now2]
  | CloseBundle => []
  end.

(** * Properties *)

Example split_query : JsString.split "?" "/a/b.js?x=1?y" = ["/a/b.js"; "x=1"; "y"].
Proof. reflexivity. Qed.

Example split_marker : JsString.split "/src/" "/p/src/src/b" = ["/p"; "src/b"].
Proof. reflexivity. Qed.

Example split_empty : JsString.split "?" "" = [""].
Proof. reflexivity. Qed.

Example normalize_win32 : normalizePath win32 "C:\proj\src\a.ts?v=3" = "C:/proj/src/a.ts".
Proof. reflexivity. Qed.

Example normalize_posix : normalizePath posix "/node_modules/lib/x.js?query=1" = "/node_modules/lib/x.js".
Proof. reflexivity. Qed.

Example short_src : getShortId posix "/home/u/proj/src/App.vue?vue&type=style" = "App.vue".
Proof. reflexivity. Qed.

Example short_dep : getShortId posix "/home/u/proj/node_modules/vue/index.js" = "vue/index.js".
Proof. reflexivity. Qed.

Example short_plain : getShortId posix "virtual:entry" = "virtual:entry".
Proof. reflexivity. Qed.

Example sort_is_stable :
  sort_desc sm_time [SlowModule "a" 250; SlowModule "b" 300; SlowModule "c" 250] =
  [SlowModule "b" 300; SlowModule "a" 250; SlowModule "c" 250].
Proof. reflexivity. Qed.

Example buckets :
  foldl add_stat []
    [("/node_modules/foo/a.js", 80%Z); ("/node_modules/foo/b.js", 40%Z); ("/src/c.ts", 10%Z)] =
  [("foo", DirStat 2 120); (project_source, DirStat 1 10)].
Proof. reflexivity. Qed.

Example duration_of_200_is_not_slow :
  slowModules (exec posix [BuildStart 1; Transform "/src/a.ts" 1;
                           ModuleParsed "/src/a.ts" 201 201] init) = [].
Proof. by vm_compute. Qed.

Example duration_of_201_is_slow :
  slowModules (exec posix [BuildStart 1; Transform "/src/a.ts" 1;
                           ModuleParsed "/src/a.ts" 202 202] init) =
  [SlowModule "/src/a.ts" 201].
Proof. by vm_compute. Qed.

Example sample_build_progress :
  progress_counts
    (output posix (BuildStart 0 :: (start_of <$> sample_units 150) ++
                                   (completion_of <$> sample_units 150)) init) =
  [100; 150].
Proof. by vm_compute. Qed.

(** When every unit completes before the next one starts, [processedModules]
    equals [totalModules] at every completion and each one logs progress. *)
Example interleaved_build_progress :
  progress_counts
    (output posix (BuildStart 0 :: (sample_units 3 ≫= λ u, [start_of u; completion_of u]))
       init) =
  [1; 2; 3].
Proof. by vm_compute. Qed.

(** ** Strings *)

Lemma split_go_nonempty sep skip s : JsString.split_go sep skip s ≠ [].
Proof.
  revert skip. induction s as [|c s IH]; intros skip; simpl; [done|].
  destruct skip; [|apply IH].
  destruct (JsString.starts_with sep (String c s)); [done|].
  destruct (JsString.split_go sep 0 s); done.
Qed.

Lemma starts_with_char c a s :
  JsString.starts_with (String c EmptyString) (String a s) = Ascii.eqb c a.
Proof. simpl. by destruct (Ascii.eqb c a). Qed.

Lemma split_char_hd c s :
  hd EmptyString (JsString.split (String c EmptyString) s) = before c s.
Proof.
  unfold JsString.split. induction s as [|a s IH]; [done|].
  cbn [JsString.split_go before]. rewrite starts_with_char, (Ascii.eqb_sym c a).
  destruct (Ascii.eqb a c); [done|].
  destruct (JsString.split_go _ 0 s) as [|piece pieces] eqn:Hs; simpl in *; by rewrite <-IH.
Qed.

Lemma join_cons glue piece pieces :
  pieces ≠ [] →
  JsString.join glue (piece :: pieces) = piece +:+ glue +:+ JsString.join glue pieces.
Proof. by destruct pieces. Qed.

Lemma join_push glue a piece pieces :
  JsString.join glue (String a piece :: pieces) =
  String a (JsString.join glue (piece :: pieces)).
Proof. by destruct pieces. Qed.

Lemma split_char_join c d s :
  JsString.join (String d EmptyString) (JsString.split (String c EmptyString) s) =
  replace c d s.
Proof.
  unfold JsString.split. induction s as [|a s IH]; [done|].
  cbn [JsString.split_go replace]. rewrite starts_with_char, (Ascii.eqb_sym c a).
  destruct (Ascii.eqb a c).
  - cbn [String.length Nat.sub]. rewrite join_cons by apply split_go_nonempty.
    by rewrite IH.
  - destruct (JsString.split_go _ 0 s) as [|piece pieces] eqn:Hs.
    { by apply split_go_nonempty in Hs. }
    by rewrite join_push, IH.
Qed.

(** [normalizePath] cuts the id at its first ['?'] and turns every separator
    of the platform into ['/']. *)
Lemma normalizePath_spec p id :
  normalizePath p id = replace (sep_char p) "/" (before "?" id).
Proof.
  unfold normalizePath. rewrite split_char_hd.
  destruct p; apply split_char_join.
Qed.

(** The key of an id depends only on what precedes its first ['?']. *)
Lemma normalizePath_clean p id id' :
  hd EmptyString (JsString.split "?" id) = hd EmptyString (JsString.split "?" id') →
  normalizePath p id = normalizePath p id'.
Proof. unfold normalizePath. by intros ->. Qed.

(** ** Insertion-ordered maps *)

Section JsMapFacts.
Context {V : Type}.
Implicit Types (m : list (string * V)) (k : string) (v : V).

Lemma get_set_eq k v m : JsMap.get k (JsMap.set k v m) = Some v.
Proof.
  induction m as [|[k' v'] m IH]; simpl.
  - by rewrite String.eqb_refl.
  - destruct (String.eqb_spec k' k) as [->|Hne]; simpl.
    + by rewrite String.eqb_refl.
    + by destruct (String.eqb_spec k' k).
Qed.

Lemma keys_set k v m :
  JsMap.keys (JsMap.set k v m) =
  if bool_decide (k ∈ JsMap.keys m) then JsMap.keys m else JsMap.keys m ++ [k].
Proof.
  unfold JsMap.keys. induction m as [|[k' v'] m IH]; simpl; [done|].
  destruct (String.eqb_spec k' k) as [->|Hne]; csimpl.
  - rewrite bool_decide_eq_true_2; [done|constructor].
  - rewrite IH. case_bool_decide as Hin.
    + rewrite bool_decide_eq_true_2; [done|by constructor].
    + rewrite bool_decide_eq_false_2; [done|].
      intros [?|?]%elem_of_cons; congruence.
Qed.

Lemma elem_of_keys_set k k' v m :
  k' ∈ JsMap.keys (JsMap.set k v m) ↔ k' = k ∨ k' ∈ JsMap.keys m.
Proof.
  rewrite keys_set. case_bool_decide as Hin.
  - split; [auto|intros [->|?]; done].
  - rewrite elem_of_app, list_elem_of_singleton. tauto.
Qed.

Lemma NoDup_keys_set k v m :
  NoDup (JsMap.keys m) → NoDup (JsMap.keys (JsMap.set k v m)).
Proof.
  intros Hm. rewrite keys_set. case_bool_decide; [done|].
  apply NoDup_app. split_and!; [done| |apply NoDup_singleton].
  intros x Hx ->%list_elem_of_singleton. done.
Qed.

Lemma size_keys m : JsMap.size m = length (JsMap.keys m).
Proof. unfold JsMap.size, JsMap.keys. by rewrite length_fmap. Qed.

Lemma size_set k v m :
  JsMap.size (JsMap.set k v m) =
  if bool_decide (k ∈ JsMap.keys m) then JsMap.size m else S (JsMap.size m).
Proof.
  rewrite !size_keys, keys_set. case_bool_decide; [done|].
  rewrite length_app. simpl. lia.
Qed.
End JsMapFacts.

(** ** The descending sort *)

Section SortDescFacts.
Context {A : Type} (key : A → Z).
Implicit Types (x : A) (l : list A).

Lemma insert_desc_perm x l : insert_desc key x l ≡ₚ x :: l.
Proof.
  induction l as [|y l IH]; simpl; [done|].
  destruct (key x <? key y)%Z; [|done].
  rewrite IH. apply Permutation_swap.
Qed.

Lemma sort_desc_perm l : sort_desc key l ≡ₚ l.
Proof.
  induction l as [|x l IH]; simpl; [done|].
  by rewrite insert_desc_perm, IH.
Qed.

Lemma sort_desc_length l : length (sort_desc key l) = length l.
Proof. by rewrite sort_desc_perm. Qed.

Lemma insert_desc_sorted x l :
  StronglySorted (descending key) l → StronglySorted (descending key) (insert_desc key x l).
Proof.
  induction 1 as [|y l Hl IH Hy]; simpl.
  - repeat constructor.
  - destruct (Z.ltb_spec (key x) (key y)) as [Hlt|Hge].
    + constructor; [done|].
      rewrite insert_desc_perm. constructor; [unfold descending; lia|done].
    + constructor; [by constructor|].
      constructor; [done|].
      eapply Forall_impl; [exact Hy|]. unfold descending. intros z Hz. simpl in *. lia.
Qed.

Lemma sort_desc_sorted l : StronglySorted (descending key) (sort_desc key l).
Proof.
  induction l as [|x l IH]; simpl; [constructor|by apply insert_desc_sorted].
Qed.

(** An array already in descending order is left as it is. *)
Lemma sort_desc_id l : StronglySorted (descending key) l → sort_desc key l = l.
Proof.
  induction 1 as [|x l Hl IH Hx]; simpl; [done|].
  rewrite IH. destruct Hx as [|y l Hy _]; simpl; [done|].
  unfold descending in Hy. by destruct (Z.ltb_spec (key x) (key y)); [lia|].
Qed.
End SortDescFacts.

(** ** Quotients *)

Lemma of_nat_not_zero n : 0 < n → JsNum.is_zero (inject_Z (Z.of_nat n)) = false.
Proof. intros Hn. unfold JsNum.is_zero. simpl. apply Z.eqb_neq. lia. Qed.

Lemma div_by_counter_finite a n :
  JsNum.finite a → 0 < n → JsNum.finite (JsNum.div a (JsNum.of_nat n)).
Proof.
  intros Ha Hn. destruct a as [q| |]; [|done..].
  unfold JsNum.of_nat, JsNum.of_Z. simpl. by rewrite of_nat_not_zero.
Qed.

Lemma div_by_1000_finite z : JsNum.finite (JsNum.div (JsNum.of_Z z) (JsNum.of_Z 1000)).
Proof. done. Qed.

Lemma mul_finite a b : JsNum.finite a → JsNum.finite b → JsNum.finite (JsNum.mul a b).
Proof. by destruct a, b. Qed.

(** ** Running sequences of calls *)

Section RunFacts.
Variable p : platform.

Lemma exec_nil st : exec p [] st = st.
Proof. done. Qed.

Lemma exec_cons c cs st : exec p (c :: cs) st = exec p cs (step p c st).1.
Proof. done. Qed.

Lemma output_cons c cs st :
  output p (c :: cs) st = (step p c st).2 ++ output p cs (step p c st).1.
Proof. done. Qed.

Lemma exec_app cs cs' st : exec p (cs ++ cs') st = exec p cs' (exec p cs st).
Proof.
  revert st. induction cs as [|c cs IH]; intros st; [done|].
  simpl app. rewrite !exec_cons. apply IH.
Qed.

Lemma output_app cs cs' st :
  output p (cs ++ cs') st = output p cs st ++ output p cs' (exec p cs st).
Proof.
  revert st. induction cs as [|c cs IH]; intros st; [done|].
  simpl app. rewrite !output_cons, exec_cons, IH. by rewrite (assoc (++)).
Qed.

(** [moduleParsed] on a key that has no usable start. *)
Lemma moduleParsed_skip id now now2 st :
  records p id st = false → moduleParsed p id now now2 st = (st, []).
Proof.
  unfold records, moduleParsed. destruct (startTimes st !! normalizePath p id) as [s|]; [|done].
  by destruct (s =? 0)%Z.
Qed.

(** [moduleParsed] on a key whose start is pending with a non-zero reading. *)
Lemma moduleParsed_record id now now2 st s :
  startTimes st !! normalizePath p id = Some s → s ≠ 0%Z →
  let key := normalizePath p id in
  let d := (now - s)%Z in
  let st' := (moduleParsed p id now now2 st).1 in
  moduleTransformTimes st' = JsMap.set key d (moduleTransformTimes st) ∧
  slowModules st' =
    (if (200 <? d)%Z then slowModules st ++ [SlowModule key d] else slowModules st) ∧
  startTimes st' = delete key (startTimes st) ∧
  processedIds st' = processedIds st ∧
  totalModules st' = totalModules st ∧
  processedModules st' = S (processedModules st) ∧
  buildStartTime st' = buildStartTime st.
Proof.
  intros Hs Hnz. unfold moduleParsed. rewrite Hs.
  apply Z.eqb_neq in Hnz. rewrite Hnz. done.
Qed.

Lemma records_spec id st :
  records p id st = true ↔
  ∃ s, startTimes st !! normalizePath p id = Some s ∧ s ≠ 0%Z.
Proof.
  unfold records. destruct (startTimes st !! normalizePath p id) as [s|].
  - rewrite negb_true_iff, Z.eqb_neq. split; [eauto|].
    by intros (s' & [= <-] & Hnz).
  - split; [done|]. by intros (s & [=] & _).
Qed.
End RunFacts.

(** ** Consistency of the state *)

(** A state with empty containers and zero counters, whatever its
    [buildStartTime]. *)
Lemma cleared_consistent now : consistent (Profiler [] [] ∅ ∅ 0 0 now).
Proof.
  split; simpl; try done; try lia.
  - intros k Hk. by apply elem_of_nil in Hk.
  - constructor.
Qed.

Lemma init_consistent : consistent init.
Proof. apply cleared_consistent. Qed.

Section Consistency.
Variable p : platform.

Lemma buildStart_consistent now st : consistent (buildStart now st).1.
Proof. apply cleared_consistent. Qed.

Lemma transform_consistent id now st :
  consistent st → consistent (transform p id now st).1.
Proof.
  intros [Htot Hpend Hknown Hdist Hcnt Hslow Hpos].
  unfold transform. case_bool_decide as Hin; split; simpl; try done.
  - rewrite dom_insert_L. set_solver.
  - rewrite size_union by set_solver. rewrite size_singleton. lia.
  - rewrite dom_insert_L. set_solver.
  - set_solver.
  - lia.
Qed.

Lemma moduleParsed_consistent id now now2 st :
  consistent st → consistent (moduleParsed p id now now2 st).1.
Proof.
  intros Hst. destruct (records p id st) eqn:Hrec; cycle 1.
  { rewrite moduleParsed_skip by done. exact Hst. }
  apply records_spec in Hrec as (s & Hs & Hnz).
  destruct (moduleParsed_record p id now now2 st s Hs Hnz)
    as (Htimes & Hslows & Hstarts & Hids & Htotal & Hproc & _).
  destruct Hst as [Htot Hpend Hknown Hdist Hcnt Hslow Hpos].
  assert (normalizePath p id ∈ processedIds st) as Hkey.
  { apply Hpend, elem_of_dom. eauto. }
  split.
  - by rewrite Htotal, Hids.
  - rewrite Hstarts, Hids, dom_delete_L. set_solver.
  - intros k. rewrite Htimes, Hids, elem_of_keys_set. intros [->|?]; auto.
  - rewrite Htimes. by apply NoDup_keys_set.
  - rewrite Htimes, Hproc, size_set. case_bool_decide; lia.
  - rewrite Hproc. lia.
  - rewrite Htotal, Htot. intros _.
    destruct (decide (size (processedIds st) = 0)) as [Hz|]; [|lia].
    apply size_empty_inv in Hz. set_solver.
Qed.

Lemma closeBundle_consistent st : consistent st → consistent (closeBundle p st).1.
Proof.
  intros [Htot Hpend Hknown Hdist Hcnt Hslow Hpos].
  unfold closeBundle. destruct (length (slowModules st) =? 0)%nat eqn:Hlen; [done|].
  split; simpl; try done.
  intros _. apply Hslow. intros Hnil. by rewrite Hnil in Hlen.
Qed.

Lemma step_consistent c st : consistent st → consistent (step p c st).1.
Proof.
  destruct c; simpl; intros Hst.
  - apply cleared_consistent.
  - by apply transform_consistent.
  - by apply moduleParsed_consistent.
  - by apply closeBundle_consistent.
Qed.

Lemma exec_consistent cs st : consistent st → consistent (exec p cs st).
Proof.
  revert st. induction cs as [|c cs IH]; intros st Hst; [done|].
  rewrite exec_cons. by apply IH, step_consistent.
Qed.
End Consistency.

(** ** The hooks one at a time *)

Section HookFacts.
Variable p : platform.

Lemma transform_fields id now st :
  let key := normalizePath p id in
  let st' := (transform p id now st).1 in
  moduleTransformTimes st' = moduleTransformTimes st ∧
  slowModules st' = slowModules st ∧
  startTimes st' = <[key := now]> (startTimes st) ∧
  processedModules st' = processedModules st ∧
  buildStartTime st' = buildStartTime st ∧
  key ∈ processedIds st' ∧
  totalModules st' =
    (if bool_decide (key ∈ processedIds st) then totalModules st else S (totalModules st)).
Proof.
  unfold transform. simpl. split_and!; try done.
  - case_bool_decide; simpl; set_solver.
  - by case_bool_decide.
Qed.

Lemma transform_no_progress id now st : progress_counts (transform p id now st).2 = [].
Proof.
  unfold transform. simpl.
  by destruct (negb _ && negb _).
Qed.

(** Starting a key that is already known leaves the counter alone. *)
Lemma restart_known key (starts : list (string * Z)) st :
  Forall (λ s, normalizePath p s.1 = key) starts →
  key ∈ processedIds st →
  let st' := exec p ((λ s, Transform s.1 s.2) <$> starts) st in
  totalModules st' = totalModules st ∧ key ∈ processedIds st'.
Proof.
  revert st. induction starts as [|[id now] starts IH]; intros st Hkeys Hin; [done|].
  apply Forall_cons in Hkeys as [Hid Hrest]. simpl in Hid.
  csimpl. rewrite exec_cons. unfold step.
  destruct (transform_fields id now st) as (_ & _ & _ & _ & _ & Hin' & Htot).
  rewrite Hid in Hin', Htot. rewrite bool_decide_eq_true_2 in Htot by done.
  destruct (IH _ Hrest Hin') as [Htot' Hin''].
  split; [|done]. by rewrite Htot'.
Qed.

(** A start followed by the completion of an id with the same key. *)
Lemma start_then_complete id id' t0 t1 t2 st :
  normalizePath p id = normalizePath p id' → t0 ≠ 0%Z →
  let key := normalizePath p id in
  let st' := exec p [Transform id t0; ModuleParsed id' t1 t2] st in
  JsMap.get key (moduleTransformTimes st') = Some (t1 - t0)%Z ∧
  processedModules st' = S (processedModules st) ∧
  startTimes st' !! key = None.
Proof.
  intros Hkey Hnz. cbv zeta. rewrite !exec_cons, exec_nil. unfold step.
  destruct (transform_fields id t0 st) as (Htimes & _ & Hstarts & Hproc & _).
  set (st1 := (transform p id t0 st).1) in *.
  assert (startTimes st1 !! normalizePath p id' = Some t0) as Hs.
  { rewrite Hstarts, Hkey. apply lookup_insert_eq. }
  destruct (moduleParsed_record p id' t1 t2 st1 t0 Hs Hnz)
    as (Htimes' & _ & Hstarts' & _ & _ & Hproc' & _).
  rewrite Htimes', Hstarts', Hproc', Hproc, Hkey.
  split_and!; [apply get_set_eq|done|apply lookup_delete_eq].
Qed.

(** A start taken at clock reading 0 is not usable: the matching
    completion is dropped and the start stays pending. *)
Lemma zero_start_dropped id id' t1 t2 st :
  normalizePath p id = normalizePath p id' →
  exec p [Transform id 0; ModuleParsed id' t1 t2] st = (transform p id 0 st).1.
Proof.
  intros Hkey. rewrite !exec_cons, exec_nil. unfold step.
  rewrite moduleParsed_skip; [done|].
  unfold records. destruct (transform_fields id 0 st) as (_ & _ & -> & _).
  by rewrite Hkey, lookup_insert_eq.
Qed.

(** The equality of the counter and the set is kept by every hook. *)
Lemma step_total c st :
  totalModules st = size (processedIds st) →
  totalModules (step p c st).1 = size (processedIds (step p c st).1).
Proof.
  intros Htot. destruct c as [now|id now|id now now2|]; simpl.
  - done.
  - unfold transform. case_bool_decide; simpl; [done|].
    rewrite size_union by set_solver. rewrite size_singleton. lia.
  - destruct (records p id st) eqn:Hrec; cycle 1.
    { by rewrite moduleParsed_skip. }
    apply records_spec in Hrec as (s & Hs & Hnz).
    destruct (moduleParsed_record p id now now2 st s Hs Hnz)
      as (_ & _ & _ & -> & -> & _). done.
  - unfold closeBundle. by destruct (length (slowModules st) =? 0)%nat.
Qed.
End HookFacts.

(** * The claims *)

(** C10: the counter [totalModules] is the cardinality of [processedIds].
    The equality holds in the initial state and after [buildStart], and
    every hook keeps it, so it holds after any sequence of calls from a state
    where it holds. *)
Theorem total_is_cardinality p cs st :
  totalModules st = size (processedIds st) →
  totalModules (exec p cs st) = size (processedIds (exec p cs st)).
Proof.
  revert st. induction cs as [|c cs IH]; intros st Hst; [done|].
  rewrite exec_cons. by apply IH, step_total.
Qed.

Lemma total_is_cardinality_witness :
  let cs := [BuildStart 5; Transform "/src/a.ts" 6; Transform "/src/b.ts?x" 7;
             ModuleParsed "/src/a.ts" 9 9; Transform "/src/a.ts?y" 10] in
  totalModules init = size (processedIds init) ∧
  totalModules (exec posix cs init) = size (processedIds (exec posix cs init)).
Proof.
  split; [reflexivity|].
  apply (total_is_cardinality posix); reflexivity.
Defined.

(** C5: [moduleParsed] for an id whose key has no entry in [startTimes]
    changes nothing: the state is the same record, and nothing is logged. *)
Theorem complete_without_start_noop p id now now2 st :
  startTimes st !! normalizePath p id = None →
  moduleParsed p id now now2 st = (st, []).
Proof.
  intros Hnone. apply moduleParsed_skip. unfold records. by rewrite Hnone.
Qed.

Lemma complete_without_start_noop_witness :
  startTimes init !! normalizePath posix "/src/a.ts" = None ∧
  moduleParsed posix "/src/a.ts" 250 250 init = (init, []).
Proof.
  split; [reflexivity|].
  apply (complete_without_start_noop posix "/src/a.ts" 250 250 init); reflexivity.
Defined.

(** C7: a completion that records the duration [d] appends [(key, d)] to
    [slowModules] if and only if [d > 200]; otherwise [slowModules] is
    unchanged.  In both cases [d] is stored under the key. *)
Theorem outlier_threshold p id now now2 st s :
  startTimes st !! normalizePath p id = Some s → s ≠ 0%Z →
  let key := normalizePath p id in
  let d := (now - s)%Z in
  let st' := (moduleParsed p id now now2 st).1 in
  JsMap.get key (moduleTransformTimes st') = Some d ∧
  (slowModules st' = slowModules st ++ [SlowModule key d] ↔ (200 < d)%Z) ∧
  ((d ≤ 200)%Z → slowModules st' = slowModules st).
Proof.
  intros Hs Hnz key d st'.
  destruct (moduleParsed_record p id now now2 st s Hs Hnz) as (Htimes & Hslow & _).
  fold key d st' in Htimes, Hslow. rewrite Htimes, Hslow.
  split; [apply get_set_eq|].
  destruct (Z.ltb_spec 200 d) as [Hlt|Hle].
  - split; [done|lia].
  - split; [|done]. split; [|lia].
    intros Heq. apply (f_equal length) in Heq. rewrite length_app in Heq. simpl in Heq. lia.
Qed.

Lemma outlier_threshold_witness :
  let st := (transform posix "/src/a.ts" 7 init).1 in
  startTimes st !! normalizePath posix "/src/a.ts" = Some 7%Z ∧ 7%Z ≠ 0%Z ∧
  slowModules (moduleParsed posix "/src/a.ts" 207 207 st).1 = [].
Proof.
  split; [reflexivity|]. split; [discriminate|].
  refine (proj2 (proj2 (outlier_threshold posix "/src/a.ts" 207 207
                          (transform posix "/src/a.ts" 7 init).1 7 _ _)) _).
  - reflexivity.
  - discriminate.
  - simpl. lia.
Defined.

(** The start of ["/node_modules/lib/x.js?query=1"] and the completion of
    ["/node_modules/lib/x.js"] have the same key, on both platforms.  When the
    start's clock reading is not 0 the completion finds the pending start: it
    stores the duration, counts the completion and clears the pending
    start. *)
Lemma query_suffix_matches p t0 t1 t2 st :
  t0 ≠ 0%Z →
  let key := "/node_modules/lib/x.js" in
  let st' := exec p [Transform "/node_modules/lib/x.js?query=1" t0;
                     ModuleParsed "/node_modules/lib/x.js" t1 t2] st in
  normalizePath p "/node_modules/lib/x.js?query=1" = key ∧
  normalizePath p "/node_modules/lib/x.js" = key ∧
  JsMap.get key (moduleTransformTimes st') = Some (t1 - t0)%Z ∧
  processedModules st' = S (processedModules st) ∧
  startTimes st' !! key = None.
Proof.
  intros Hnz.
  assert (normalizePath p "/node_modules/lib/x.js?query=1" = "/node_modules/lib/x.js")
    as Hstart by (destruct p; reflexivity).
  assert (normalizePath p "/node_modules/lib/x.js" = "/node_modules/lib/x.js")
    as Hdone by (destruct p; reflexivity).
  cbv zeta. split; [exact Hstart|]. split; [exact Hdone|].
  pose proof (start_then_complete p _ _ t0 t1 t2 st
                (eq_trans Hstart (eq_sym Hdone)) Hnz) as Hrun.
  cbv zeta in Hrun. rewrite Hstart in Hrun. exact Hrun.
Qed.

Lemma query_suffix_matches_witness :
  let st' := exec win32 [Transform "/node_modules/lib/x.js?query=1" 3;
                         ModuleParsed "/node_modules/lib/x.js" 45 46] init in
  3%Z ≠ 0%Z ∧
  JsMap.get "/node_modules/lib/x.js" (moduleTransformTimes st') = Some 42%Z.
Proof.
  split; [discriminate|].
  refine (proj1 (proj2 (proj2 (query_suffix_matches win32 3 45 46 init _)))).
  discriminate.
Defined.

(** C9, evaluated on the code: the two ids of the scenario do have the same
    key, but when the clock reads 0 at the start the completion is dropped all
    the same: in every state and at every later reading [moduleParsed] changes
    nothing and logs nothing, no duration is stored for the key, the
    completion is not counted and the start stays pending.  The test
    [!startTime] of line 77 takes the reading 0 for a missing start, as in
    C1. *)
Theorem query_suffix_start_at_zero p t1 t2 st :
  let key := "/node_modules/lib/x.js" in
  let st1 := (transform p "/node_modules/lib/x.js?query=1" 0 st).1 in
  normalizePath p "/node_modules/lib/x.js?query=1" = key ∧
  normalizePath p "/node_modules/lib/x.js" = key ∧
  startTimes st1 !! key = Some 0%Z ∧
  moduleParsed p "/node_modules/lib/x.js" t1 t2 st1 = (st1, []) ∧
  JsMap.get key
    (moduleTransformTimes
       (exec p [BuildStart 0; Transform "/node_modules/lib/x.js?query=1" 0;
                ModuleParsed "/node_modules/lib/x.js" t1 t2] st)) = None.
Proof.
  assert (normalizePath p "/node_modules/lib/x.js?query=1" = "/node_modules/lib/x.js")
    as Hstart by (destruct p; reflexivity).
  assert (normalizePath p "/node_modules/lib/x.js" = "/node_modules/lib/x.js")
    as Hdone by (destruct p; reflexivity).
  assert (∀ st0, startTimes (transform p "/node_modules/lib/x.js?query=1" 0 st0).1
                 !! "/node_modules/lib/x.js" = Some 0%Z) as Hpending.
  { intros st0.
    destruct (transform_fields p "/node_modules/lib/x.js?query=1" 0 st0) as (_ & _ & -> & _).
    rewrite Hstart. apply lookup_insert_eq. }
  cbv zeta. split; [exact Hstart|]. split; [exact Hdone|].
  split; [apply Hpending|]. split.
  - apply moduleParsed_skip. unfold records. rewrite Hdone, Hpending. reflexivity.
  - rewrite exec_cons. unfold step at 1.
    rewrite zero_start_dropped by (rewrite Hstart, Hdone; reflexivity).
    destruct (transform_fields p "/node_modules/lib/x.js?query=1" 0 (buildStart 0 st).1)
      as (-> & _).
    reflexivity.
Qed.

(** C1, evaluated on the code: with [buildStart] and [transform] at clock
    reading 0 and [moduleParsed] at 250, nothing is recorded for
    ["/src/a.ts"]: [moduleTransformTimes] and [slowModules] stay empty, the
    completion is not counted and the start stays pending.  The test
    [!startTime] of line 77 takes the reading 0 for a missing start. *)
Theorem start_at_zero_not_honoured p :
  let st := exec p [BuildStart 0; Transform "/src/a.ts" 0;
                    ModuleParsed "/src/a.ts" 250 250] init in
  JsMap.get "/src/a.ts" (moduleTransformTimes st) = None ∧
  moduleTransformTimes st = [] ∧
  slowModules st = [] ∧
  processedModules st = 0 ∧
  startTimes st !! "/src/a.ts" = Some 0%Z.
Proof.
  intros st. subst st.
  rewrite exec_cons. unfold step at 1.
  rewrite zero_start_dropped by done.
  by destruct p.
Qed.

(** The same scenario one millisecond later does what C1 describes. *)
Lemma start_at_one_honoured p :
  let st := exec p [BuildStart 0; Transform "/src/a.ts" 1;
                    ModuleParsed "/src/a.ts" 251 251] init in
  moduleTransformTimes st = [("/src/a.ts", 250%Z)] ∧
  slowModules st = [SlowModule "/src/a.ts" 250].
Proof. by destruct p. Qed.

(** C6: [N ≥ 1] calls of [transform] whose ids all have the key [key], made
    from a state in which [key] is not yet known, raise [totalModules] by
    exactly 1. *)
Theorem dedup_starts p key (starts : list (string * Z)) st :
  starts ≠ [] →
  Forall (λ s, normalizePath p s.1 = key) starts →
  key ∉ processedIds st →
  totalModules (exec p ((λ s, Transform s.1 s.2) <$> starts) st) = S (totalModules st).
Proof.
  intros Hne Hkeys Hnew. destruct starts as [|[id now] starts]; [done|].
  apply Forall_cons in Hkeys as [Hid Hrest]. simpl in Hid.
  csimpl. rewrite exec_cons. unfold step.
  destruct (transform_fields p id now st) as (_ & _ & _ & _ & _ & Hin & Htot).
  rewrite Hid in Hin, Htot. rewrite bool_decide_eq_false_2 in Htot by done.
  destruct (restart_known p key starts _ Hrest Hin) as [Htot' _].
  by rewrite Htot'.
Qed.

Lemma dedup_starts_witness :
  let starts := [("C:\proj\src\a.ts", 4%Z); ("C:/proj/src/a.ts?v=1", 5%Z);
                 ("C:\proj/src\a.ts?import&t=2", 6%Z)] in
  starts ≠ [] ∧
  Forall (λ s, normalizePath win32 s.1 = "C:/proj/src/a.ts") starts ∧
  ("C:/proj/src/a.ts" ∉ processedIds init) ∧
  totalModules (exec win32 ((λ s, Transform s.1 s.2) <$> starts) init) = 1.
Proof.
  split; [discriminate|]. split; [repeat constructor|].
  split; [apply not_elem_of_empty|].
  apply (dedup_starts win32 "C:/proj/src/a.ts").
  - discriminate.
  - repeat constructor.
  - apply not_elem_of_empty.
Defined.

(** ** Completions recorded since the last [buildStart] *)

Section Tracking.
Variable p : platform.

Lemma step_tracks c st ks :
  tracks st ks → tracks (step p c st).1 (completions p [c] st ks).
Proof.
  intros [Hcount Hkeys]. destruct c as [now|id now|id now now2|]; cbn [completions step].
  - split; [done|]. intros k. done.
  - destruct (transform_fields p id now st) as (Htimes & _ & _ & Hproc & _).
    split; [by rewrite Hproc|]. intros k. by rewrite Htimes.
  - destruct (records p id st) eqn:Hrec; cycle 1.
    { rewrite moduleParsed_skip by done. by split. }
    apply records_spec in Hrec as (s & Hs & Hnz).
    destruct (moduleParsed_record p id now now2 st s Hs Hnz)
      as (Htimes & _ & _ & _ & _ & Hproc & _).
    split.
    + rewrite Hproc, length_app. simpl. lia.
    + intros k. rewrite Htimes, elem_of_keys_set, elem_of_app, list_elem_of_singleton.
      rewrite Hkeys. tauto.
  - unfold closeBundle. destruct (length (slowModules st) =? 0)%nat; by split.
Qed.

Lemma exec_tracks cs st ks :
  tracks st ks → tracks (exec p cs st) (completions p cs st ks).
Proof.
  revert st ks. induction cs as [|c cs IH]; intros st ks Hst; [done|].
  rewrite exec_cons. apply IH. by apply (step_tracks c) in Hst.
Qed.

Lemma init_tracks : tracks init [].
Proof. by split. Qed.
End Tracking.

(** C2 as first stated fails: a key that completes twice is counted twice
    but has one entry. *)
Lemma second_completion_counted_twice :
  let st := exec posix [BuildStart 1; Transform "/src/a.ts" 1; ModuleParsed "/src/a.ts" 2 2;
                        Transform "/src/a.ts" 3; ModuleParsed "/src/a.ts" 4 4] init in
  processedModules st = 2 ∧
  JsMap.size (moduleTransformTimes st) = 1 ∧
  processedModules st ≠ JsMap.size (moduleTransformTimes st).
Proof. by vm_compute. Qed.

(** C2, amended: after any sequence of calls [processedModules] is the
    number of completions recorded since the last [buildStart] and the keys
    of [moduleTransformTimes] are the keys of those completions.  So the
    counter is at least the size of the map, the two are equal when no key
    completed twice, and every key of the map is in [processedIds]. *)
Theorem completed_count_vs_size p cs :
  let st := exec p cs init in
  let ks := completions p cs init [] in
  processedModules st = length ks ∧
  (∀ k, k ∈ JsMap.keys (moduleTransformTimes st) ↔ k ∈ ks) ∧
  JsMap.size (moduleTransformTimes st) ≤ processedModules st ∧
  (NoDup ks → processedModules st = JsMap.size (moduleTransformTimes st)) ∧
  (∀ k, k ∈ JsMap.keys (moduleTransformTimes st) → k ∈ processedIds st).
Proof.
  intros st ks.
  destruct (exec_tracks p cs init [] (init_tracks)) as [Hcount Hkeys].
  destruct (exec_consistent p cs init init_consistent) as [_ _ Hknown Hdist Hle _ _].
  fold st ks in Hcount, Hkeys, Hknown, Hdist, Hle.
  split_and!; try done.
  intros Hks. rewrite Hcount, size_keys.
  symmetry. apply Permutation_length, NoDup_Permutation; done.
Qed.

Lemma completed_count_vs_size_witness :
  let cs := [BuildStart 1; Transform "/src/a.ts" 1; Transform "/src/b.ts" 2;
             ModuleParsed "/src/b.ts" 3 3; ModuleParsed "/src/c.ts" 3 3;
             ModuleParsed "/src/a.ts?x" 4 4] in
  NoDup (completions posix cs init []) ∧
  processedModules (exec posix cs init) =
    JsMap.size (moduleTransformTimes (exec posix cs init)).
Proof.
  assert (NoDup (completions posix
            [BuildStart 1; Transform "/src/a.ts" 1; Transform "/src/b.ts" 2;
             ModuleParsed "/src/b.ts" 3 3; ModuleParsed "/src/c.ts" 3 3;
             ModuleParsed "/src/a.ts?x" 4 4] init [])) as Hdone.
  { apply (bool_decide_unpack _). vm_compute. exact I. }
  split; [exact Hdone|].
  exact (proj1 (proj2 (proj2 (proj2 (completed_count_vs_size posix _)))) Hdone).
Defined.

(** ** The final report *)

Section Report.
Variable p : platform.

Lemma closeBundle_empty st :
  slowModules st = [] → closeBundle p st = (st, [LogReportHeader; LogNoData]).
Proof. intros Hnil. unfold closeBundle. by rewrite Hnil. Qed.

Lemma closeBundle_fields st :
  let st' := (closeBundle p st).1 in
  moduleTransformTimes st' = moduleTransformTimes st ∧
  slowModules st' = sort_desc sm_time (slowModules st) ∧
  startTimes st' = startTimes st ∧
  processedIds st' = processedIds st ∧
  totalModules st' = totalModules st ∧
  processedModules st' = processedModules st ∧
  buildStartTime st' = buildStartTime st.
Proof.
  unfold closeBundle. destruct (slowModules st) as [|m ms] eqn:Hslow; simpl.
  - by rewrite Hslow.
  - done.
Qed.

Lemma closeBundle_report st :
  slowModules st ≠ [] →
  ∃ slowest rows,
    (closeBundle p st).2 =
      [LogReportHeader; LogSlowest slowest;
       LogDirStats ((λ e : string * dirStat,
                       (e.1, ds_count e.2,
                        JsNum.div (JsNum.of_Z (ds_time e.2)) (JsNum.of_Z 1000))) <$> rows);
       LogSummary (totalModules st) (length (slowModules st))
         (JsNum.div
            (JsNum.of_Z (foldl Z.add 0%Z (JsMap.values (moduleTransformTimes st))))
            (JsNum.of_Z 1000))
         (JsNum.div
            (JsNum.of_Z (foldl Z.add 0%Z (JsMap.values (moduleTransformTimes st))))
            (JsNum.of_nat (totalModules st)))].
Proof.
  intros Hne. unfold closeBundle.
  destruct (slowModules st) as [|m ms] eqn:Hslow; [done|].
  cbn [length Nat.eqb snd]. rewrite sort_desc_length. eauto.
Qed.
End Report.

(** C3 as first stated fails: the report sorts [slowModules] in place, so
    after it the outliers are in another order than before. *)
Lemma report_reorders_outliers :
  let st := exec posix [BuildStart 1; Transform "/src/a.ts" 1; Transform "/src/b.ts" 1;
                        ModuleParsed "/src/a.ts" 251 251;
                        ModuleParsed "/src/b.ts" 301 301] init in
  slowModules st = [SlowModule "/src/a.ts" 250; SlowModule "/src/b.ts" 300] ∧
  slowModules (closeBundle posix st).1 =
    [SlowModule "/src/b.ts" 300; SlowModule "/src/a.ts" 250] ∧
  (closeBundle posix st).1 ≠ st.
Proof.
  cbv zeta. split; [by vm_compute|]. split; [by vm_compute|].
  intros Heq. apply (f_equal slowModules) in Heq. by vm_compute in Heq.
Qed.

(** C3, amended: [closeBundle] leaves [moduleTransformTimes], [startTimes],
    [processedIds], the counters and [buildStartTime] as they were, and
    keeps the elements of [slowModules]; it puts them in descending order of
    [time].  When they are in that order already (for one, when there are
    none) the whole state is unchanged. *)
Theorem report_frame p st :
  let st' := (closeBundle p st).1 in
  moduleTransformTimes st' = moduleTransformTimes st ∧
  startTimes st' = startTimes st ∧
  processedIds st' = processedIds st ∧
  totalModules st' = totalModules st ∧
  processedModules st' = processedModules st ∧
  buildStartTime st' = buildStartTime st ∧
  slowModules st' ≡ₚ slowModules st ∧
  StronglySorted (descending sm_time) (slowModules st') ∧
  (StronglySorted (descending sm_time) (slowModules st) → st' = st).
Proof.
  intros st'.
  destruct (closeBundle_fields p st) as (Htimes & Hslow & Hstarts & Hids & Htot & Hproc & Hbst).
  fold st' in Htimes, Hslow, Hstarts, Hids, Htot, Hproc, Hbst.
  split_and!; try done.
  - rewrite Hslow. apply sort_desc_perm.
  - rewrite Hslow. apply sort_desc_sorted.
  - intros Hsorted. rewrite (sort_desc_id _ _ Hsorted) in Hslow.
    destruct st, st'; simpl in *. congruence.
Qed.

Lemma report_frame_witness :
  let st := exec posix [BuildStart 1; Transform "/src/b.ts" 1; Transform "/src/a.ts" 1;
                        ModuleParsed "/src/b.ts" 301 301;
                        ModuleParsed "/src/a.ts" 251 251] init in
  StronglySorted (descending sm_time) (slowModules st) ∧ (closeBundle posix st).1 = st.
Proof.
  assert (StronglySorted (descending sm_time)
            (slowModules
               (exec posix [BuildStart 1; Transform "/src/b.ts" 1; Transform "/src/a.ts" 1;
                            ModuleParsed "/src/b.ts" 301 301;
                            ModuleParsed "/src/a.ts" 251 251] init))) as Hsorted.
  { vm_compute. repeat constructor; discriminate. }
  split; [exact Hsorted|].
  exact (proj2 (proj2 (proj2 (proj2 (proj2 (proj2 (proj2 (proj2
           (report_frame posix _)))))))) Hsorted).
Defined.

(** ** What the hooks log *)

Section Logs.
Variable p : platform.

Lemma progress_spec processed total now start timed slow :
  0 < processed → 0 < total →
  Forall (λ e, all_finite e ∧
               ∃ pr el eta, e = LogProgress pr processed total el eta timed slow)
    (progress processed total now start timed slow).
Proof.
  intros Hproc Htot. unfold progress.
  destruct (_ || _); [|constructor].
  constructor; [|constructor]. split; [|eauto].
  assert (JsNum.finite (JsNum.div (JsNum.of_Z (now - start)) (JsNum.of_Z 1000)))
    as Helapsed by apply div_by_1000_finite.
  split_and!; [| done |].
  - apply mul_finite; [|done]. by apply div_by_counter_finite.
  - apply mul_finite; [done|]. by apply div_by_counter_finite.
Qed.

Lemma moduleParsed_log id now now2 st s :
  startTimes st !! normalizePath p id = Some s → s ≠ 0%Z →
  let key := normalizePath p id in
  let d := (now - s)%Z in
  let st' := (moduleParsed p id now now2 st).1 in
  (moduleParsed p id now now2 st).2 =
    (if (200 <? d)%Z then [LogSlowModule (getShortId p key) d] else []) ++
    progress (processedModules st') (totalModules st') now2 (buildStartTime st)
      (JsMap.size (moduleTransformTimes st')) (length (slowModules st')).
Proof.
  intros Hs Hnz. unfold moduleParsed. rewrite Hs.
  apply Z.eqb_neq in Hnz. by rewrite Hnz.
Qed.

Lemma step_log_defined c st :
  consistent st →
  Forall (λ e, all_finite e ∧ denominators_positive (step p c st).1 e) (step p c st).2.
Proof.
  intros Hst. pose proof (step_consistent p c st Hst) as Hst'.
  destruct c as [now|id now|id now now2|]; cbn [step] in *.
  - by repeat constructor.
  - unfold transform. simpl. destruct (_ && _); by repeat constructor.
  - destruct (records p id st) eqn:Hrec; cycle 1.
    { rewrite moduleParsed_skip by done. constructor. }
    apply records_spec in Hrec as (s & Hs & Hnz).
    rewrite (moduleParsed_log id now now2 st s Hs Hnz).
    destruct (moduleParsed_record p id now now2 st s Hs Hnz)
      as (_ & _ & _ & _ & _ & Hproc & _).
    set (st' := (moduleParsed p id now now2 st).1) in *.
    assert (0 < processedModules st') as Hpos by lia.
    pose proof (counted_known _ Hst' Hpos) as Htot.
    apply Forall_app. split; [destruct (200 <? _)%Z; by repeat constructor|].
    eapply Forall_impl; [by apply progress_spec|].
    intros e (Hfin & pr & el & eta & ->). by split.
  - destruct (slowModules st) as [|m ms] eqn:Hslow.
    { rewrite closeBundle_empty by done. by repeat constructor. }
    assert (slowModules st ≠ []) as Hne by by rewrite Hslow.
    destruct (closeBundle_report p st Hne) as (slowest & rows & ->).
    destruct (closeBundle_fields p st) as (_ & _ & _ & _ & Htot & Hproc & _).
    pose proof (slow_counted _ Hst Hne) as Hpos.
    pose proof (counted_known _ Hst Hpos) as Htotal.
    repeat constructor; cbn [all_finite denominators_positive]; try done.
    + apply Forall_fmap, Forall_true. intros e. apply div_by_1000_finite.
    + by apply div_by_counter_finite.
    + lia.
Qed.
End Logs.

(** C8: in every state the hooks can reach from the initial one, whatever
    hook is called next, each message it logs interpolates ordinary numbers
    only (no NaN, no Infinity), and the messages that divide by a counter,
    the progress message and the summary of the report, are logged with
    [totalModules > 0] and [processedModules > 0]. *)
Theorem no_zero_denominator p cs c :
  let st := exec p cs init in
  Forall (λ e, all_finite e ∧ denominators_positive (step p c st).1 e) (step p c st).2.
Proof. apply step_log_defined, exec_consistent, init_consistent. Qed.

(** Hence no message of any run carries NaN or Infinity. *)
Corollary output_finite p cs : Forall all_finite (output p cs init).
Proof.
  assert (∀ st, consistent st → Forall all_finite (output p cs st)) as Hall.
  { induction cs as [|c cs IH]; intros st Hst; [constructor|].
    rewrite output_cons. apply Forall_app. split.
    - eapply Forall_impl; [by apply step_log_defined|]. by intros e [? _].
    - by apply IH, step_consistent. }
  apply Hall, init_consistent.
Qed.

(** ** A build whose units all start before the first completes *)

Section Phases.
Variable p : platform.

Local Abbreviation key := (key_of p).

Lemma exec_start u cs st :
  exec p (start_of u :: cs) st = exec p cs (transform p (u_id u) (u_start u) st).1.
Proof. done. Qed.

Lemma output_start u cs st :
  output p (start_of u :: cs) st =
  (transform p (u_id u) (u_start u) st).2 ++
  output p cs (transform p (u_id u) (u_start u) st).1.
Proof. done. Qed.

Lemma exec_completion u cs st :
  exec p (completion_of u :: cs) st =
  exec p cs (moduleParsed p (u_id u) (u_done u) (u_done2 u) st).1.
Proof. done. Qed.

Lemma output_completion u cs st :
  output p (completion_of u :: cs) st =
  (moduleParsed p (u_id u) (u_done u) (u_done2 u) st).2 ++
  output p cs (moduleParsed p (u_id u) (u_done u) (u_done2 u) st).1.
Proof. done. Qed.

Lemma transform_ids id now st k :
  k ∈ processedIds (transform p id now st).1 ↔
  k = normalizePath p id ∨ k ∈ processedIds st.
Proof. unfold transform. simpl. case_bool_decide; simpl; set_solver. Qed.

Lemma progress_counts_app l l' :
  progress_counts (l ++ l') = progress_counts l ++ progress_counts l'.
Proof. apply omap_app. Qed.

Lemma progress_counts_progress c total now start timed slow :
  progress_counts (progress c total now start timed slow) =
  filter (λ n, n mod 100 = 0 ∨ n = total) [c].
Proof.
  unfold progress.
  destruct (Nat.eqb_spec (c mod 100) 0) as [Hmod|Hmod];
    destruct (Nat.eqb_spec c total) as [Heq|Hne]; simpl;
    (rewrite filter_cons_True by tauto) || (rewrite filter_cons_False by tauto); done.
Qed.

(** The starts change neither what was timed nor what was counted as
    completed, and log no progress. *)
Lemma starts_frame us st :
  let st' := exec p (start_of <$> us) st in
  moduleTransformTimes st' = moduleTransformTimes st ∧
  slowModules st' = slowModules st ∧
  processedModules st' = processedModules st ∧
  progress_counts (output p (start_of <$> us) st) = [].
Proof.
  revert st. induction us as [|u us IH]; intros st; [done|].
  rewrite fmap_cons, exec_start, output_start.
  destruct (transform_fields p (u_id u) (u_start u) st) as (Ht & Hs & _ & Hp & _).
  destruct (IH (transform p (u_id u) (u_start u) st).1) as (Ht' & Hs' & Hp' & Hlog).
  cbv zeta. rewrite Ht', Hs', Hp', progress_counts_app, Hlog, transform_no_progress.
  done.
Qed.

Lemma starts_other us st k :
  k ∉ key <$> us →
  let st' := exec p (start_of <$> us) st in
  startTimes st' !! k = startTimes st !! k ∧
  (k ∈ processedIds st' ↔ k ∈ processedIds st).
Proof.
  revert st. induction us as [|u us IH]; intros st Hk; [done|].
  rewrite fmap_cons in Hk. apply not_elem_of_cons in Hk as [Hne Hk].
  rewrite fmap_cons, exec_start.
  destruct (IH (transform p (u_id u) (u_start u) st).1 Hk) as [Hstart Hids].
  destruct (transform_fields p (u_id u) (u_start u) st) as (_ & _ & Hs & _).
  cbv zeta. rewrite Hstart, Hids, Hs, transform_ids.
  rewrite lookup_insert_ne by done. unfold key_of in Hne. tauto.
Qed.

(** After the starts of units with distinct new keys, each is counted once
    and pending with its own clock reading. *)
Lemma starts_pending us st :
  NoDup (key <$> us) →
  (∀ u, u ∈ us → key u ∉ processedIds st) →
  let st' := exec p (start_of <$> us) st in
  totalModules st' = totalModules st + length us ∧
  (∀ u, u ∈ us → startTimes st' !! key u = Some (u_start u)).
Proof.
  revert st. induction us as [|u us IH]; intros st Hdup Hnew.
  { rewrite fmap_nil, exec_nil. split; [simpl; lia|]. by intros u Hu%elem_of_nil. }
  rewrite fmap_cons in Hdup. apply NoDup_cons in Hdup as [Hu Hdup].
  rewrite fmap_cons, exec_start.
  set (st1 := (transform p (u_id u) (u_start u) st).1).
  destruct (transform_fields p (u_id u) (u_start u) st) as (_ & _ & Hs & _ & _ & _ & Htot).
  fold st1 in Hs, Htot.
  rewrite bool_decide_eq_false_2 in Htot by (apply Hnew; left).
  destruct (IH st1 Hdup) as [Htot' Hstarts].
  { intros u' Hu'. unfold st1. rewrite transform_ids. intros [Heq|Hin].
    - apply Hu. change (key u) with (normalizePath p (u_id u)). rewrite <-Heq.
      by apply list_elem_of_fmap_2.
    - by apply (Hnew u'); [right|]. }
  cbv zeta. split; [rewrite Htot', Htot, length_cons; lia|].
  intros u' [->|Hu']%elem_of_cons; [|by apply Hstarts].
  destruct (starts_other us st1 (key u) Hu) as [-> _].
  rewrite Hs. apply lookup_insert_eq.
Qed.

(** Completions of distinct pending keys: the count goes up by one each
    time, and the progress message appears at the counts that are
    multiples of 100 or equal [totalModules]. *)
Lemma completions_progress us st :
  NoDup (key <$> us) →
  (∀ u, u ∈ us → ∃ s, startTimes st !! key u = Some s ∧ s ≠ 0%Z ∧
                      (u_done u - s ≤ 200)%Z) →
  let st' := exec p (completion_of <$> us) st in
  progress_counts (output p (completion_of <$> us) st) =
    filter (λ n, n mod 100 = 0 ∨ n = totalModules st)
      (seq (S (processedModules st)) (length us)) ∧
  slowModules st' = slowModules st ∧
  processedModules st' = processedModules st + length us ∧
  totalModules st' = totalModules st.
Proof.
  revert st. induction us as [|u us IH]; intros st Hdup Hpend.
  { rewrite fmap_nil, exec_nil. by split_and!. }
  rewrite fmap_cons in Hdup. apply NoDup_cons in Hdup as [Hu Hdup].
  rewrite fmap_cons, exec_completion, output_completion.
  destruct (Hpend u) as (s & Hs & Hnz & Hd); [left|]. unfold key_of in Hs.
  set (st1 := (moduleParsed p (u_id u) (u_done u) (u_done2 u) st).1).
  destruct (moduleParsed_record p (u_id u) (u_done u) (u_done2 u) st s Hs Hnz)
    as (_ & Hslow & Hstarts & _ & Htot & Hproc & _).
  rewrite (moduleParsed_log p (u_id u) (u_done u) (u_done2 u) st s Hs Hnz).
  fold st1 in Hslow, Hstarts, Htot, Hproc |- *.
  assert ((200 <? u_done u - s)%Z = false) as Hfast by (apply Z.ltb_ge; lia).
  rewrite Hfast in Hslow |- *.
  destruct (IH st1 Hdup) as (Hlog & Hslow' & Hproc' & Htot').
  { intros u' Hu'. destruct (Hpend u') as (s' & Hs' & Hrest); [by right|].
    exists s'. split; [|done]. rewrite Hstarts, lookup_delete_ne; [done|].
    intros Heq. apply Hu. fold (key u) in Heq. rewrite Heq.
    by apply list_elem_of_fmap_2. }
  cbv zeta. rewrite Hslow', Hproc', Htot', Hslow, Hproc, Htot.
  rewrite !length_cons. split_and!; [|done|lia|done].
  rewrite app_nil_l, progress_counts_app, progress_counts_progress, Hlog, Hproc, Htot.
  by rewrite <-filter_app.
Qed.
End Phases.

(** C4 as first stated fails: the claim fixes no order between starts and
    completions.  In this build of 150 units with distinct keys, all started
    and all completed, none slow, the first unit completes before the others
    start; then [processedModules] equals [totalModules] at count 1 and the
    progress message is logged there too. *)
Lemma early_completion_logs_progress :
  let us := sample_units 150 in
  let cs := BuildStart 0 ::
            (start_of <$> take 1 us) ++ (completion_of <$> take 1 us) ++
            (start_of <$> drop 1 us) ++ (completion_of <$> drop 1 us) in
  length us = 150 ∧
  NoDup ((λ u, normalizePath posix (u_id u)) <$> us) ∧
  Forall (λ u, u_start u ≠ 0%Z ∧ (u_done u - u_start u ≤ 200)%Z) us ∧
  totalModules (exec posix cs init) = 150 ∧
  processedModules (exec posix cs init) = 150 ∧
  slowModules (exec posix cs init) = [] ∧
  progress_counts (output posix cs init) = [1; 100; 150] ∧
  progress_counts (output posix cs init) ≠ [100; 150].
Proof.
  cbv zeta. split_and!.
  - reflexivity.
  - apply (bool_decide_unpack _). vm_compute. exact I.
  - apply (bool_decide_unpack _). vm_compute. exact I.
  - by vm_compute.
  - by vm_compute.
  - by vm_compute.
  - by vm_compute.
  - intros Heq. by vm_compute in Heq.
Qed.

(** C4, amended: after [buildStart], the starts of 150 units with distinct
    keys and then, once all have started, their completions, in any order,
    none slower than 200 ms, the progress message is logged at the
    completion counts 100 and 150 and at no other count; at the end both
    counters are 150 and there is no slow module.  The clock readings of the
    starts are not 0. *)
Theorem progress_at_100_and_150 p t0 (us us' : list timedUnit) st :
  length us = 150 →
  NoDup ((λ u, normalizePath p (u_id u)) <$> us) →
  us' ≡ₚ us →
  Forall (λ u, u_start u ≠ 0%Z ∧ (u_done u - u_start u ≤ 200)%Z) us →
  let cs := BuildStart t0 :: (start_of <$> us) ++ (completion_of <$> us') in
  progress_counts (output p cs st) = [100; 150] ∧
  totalModules (exec p cs st) = 150 ∧
  processedModules (exec p cs st) = 150 ∧
  slowModules (exec p cs st) = [].
Proof.
  intros Hlen Hdup Hperm Hfast cs. subst cs.
  rewrite output_cons, exec_cons. unfold step.
  set (st0 := (buildStart t0 st).1).
  rewrite output_app, exec_app, progress_counts_app, progress_counts_app.
  destruct (starts_frame p us st0) as (_ & Hslow1 & Hproc1 & ->).
  destruct (starts_pending p us st0 Hdup) as [Htot1 Hpend1].
  { intros u _. apply not_elem_of_empty. }
  set (st1 := exec p (start_of <$> us) st0) in *.
  destruct (completions_progress p us' st1) as (Hlog & Hslow2 & Hproc2 & Htot2).
  { by rewrite Hperm. }
  { intros u Hu. rewrite Hperm in Hu. exists (u_start u).
    rewrite Forall_forall in Hfast. destruct (Hfast u Hu) as [Hnz Hd].
    split_and!; [by apply Hpend1|done|done]. }
  cbv zeta in *. rewrite Hlog, Hslow2, Hproc2, Htot2, Hslow1, Hproc1, Htot1, Hperm, Hlen.
  by vm_compute.
Qed.

Lemma progress_at_100_and_150_witness :
  let us := sample_units 150 in
  let cs := BuildStart 0 :: (start_of <$> us) ++ (completion_of <$> rev us) in
  length us = 150 ∧
  NoDup ((λ u, normalizePath posix (u_id u)) <$> us) ∧
  rev us ≡ₚ us ∧
  Forall (λ u, u_start u ≠ 0%Z ∧ (u_done u - u_start u ≤ 200)%Z) us ∧
  progress_counts (output posix cs init) = [100; 150].
Proof.
  assert (length (sample_units 150) = 150) as Hlen by reflexivity.
  assert (NoDup ((λ u, normalizePath posix (u_id u)) <$> sample_units 150)) as Hdup.
  { apply (bool_decide_unpack _). vm_compute. exact I. }
  assert (rev (sample_units 150) ≡ₚ sample_units 150) as Hperm.
  { symmetry. apply Permutation_rev. }
  assert (Forall (λ u, u_start u ≠ 0%Z ∧ (u_done u - u_start u ≤ 200)%Z)
            (sample_units 150)) as Hfast.
  { apply (bool_decide_unpack _). vm_compute. exact I. }
  split_and!; [exact Hlen|exact Hdup|exact Hperm|exact Hfast|].
  exact (proj1 (progress_at_100_and_150 posix 0 _ _ init Hlen Hdup Hperm Hfast)).
Defined.

(** * Further properties of the code *)

(** ** [normalizePath] *)

Lemma includes_char c a s :
  JsString.includes (String c EmptyString) (String a s) =
  Ascii.eqb c a || JsString.includes (String c EmptyString) s.
Proof. cbn [JsString.includes]. by rewrite starts_with_char. Qed.

Lemma includes_char_nil c : JsString.includes (String c EmptyString) EmptyString = false.
Proof. done. Qed.

Lemma before_absent c s :
  JsString.includes (String c EmptyString) s = false → before c s = s.
Proof.
  induction s as [|a s IH]; [done|].
  rewrite includes_char, orb_false_iff, (Ascii.eqb_sym c a). intros [Hne Hs].
  cbn [before]. by rewrite Hne, IH.
Qed.

Lemma includes_before c s : JsString.includes (String c EmptyString) (before c s) = false.
Proof.
  induction s as [|a s IH]; [done|]. cbn [before].
  destruct (Ascii.eqb a c) eqn:Hac; [done|].
  by rewrite includes_char, (Ascii.eqb_sym c a), Hac, IH.
Qed.

Lemma includes_replace c c' d s :
  c ≠ d →
  JsString.includes (String c EmptyString) s = false →
  JsString.includes (String c EmptyString) (replace c' d s) = false.
Proof.
  intros Hcd. induction s as [|a s IH]; [done|].
  rewrite includes_char, orb_false_iff. intros [Hne Hs].
  cbn [replace]. rewrite includes_char, IH by done.
  destruct (Ascii.eqb a c'); [|by rewrite Hne].
  by apply Ascii.eqb_neq in Hcd as ->.
Qed.

Lemma includes_replace_self c d s :
  c ≠ d → JsString.includes (String c EmptyString) (replace c d s) = false.
Proof.
  intros Hcd. induction s as [|a s IH]; [done|].
  cbn [replace]. rewrite includes_char, IH.
  destruct (Ascii.eqb a c) eqn:Hac.
  - by apply Ascii.eqb_neq in Hcd as ->.
  - by rewrite (Ascii.eqb_sym c a), Hac.
Qed.

Lemma replace_idemp c d s : replace c d (replace c d s) = replace c d s.
Proof.
  induction s as [|a s IH]; [done|]. cbn [replace]. rewrite IH. f_equal.
  destruct (Ascii.eqb a c) eqn:Hac; [|by rewrite Hac].
  by destruct (Ascii.eqb d c).
Qed.

Lemma before_append c s q : before c (s +:+ String c q) = before c s.
Proof.
  induction s as [|a s IH]; simpl.
  - by rewrite Ascii.eqb_refl.
  - by rewrite IH.
Qed.

Lemma before_replace c c' d s :
  c' ≠ c → d ≠ c → before c (replace c' d s) = replace c' d (before c s).
Proof.
  intros Hc' Hd. induction s as [|a s IH]; [done|]. cbn [replace before].
  destruct (Ascii.eqb a c) eqn:Hac.
  - apply Ascii.eqb_eq in Hac as ->.
    apply Ascii.eqb_neq in Hc'. rewrite (Ascii.eqb_sym c c'), Hc'.
    by rewrite Ascii.eqb_refl.
  - cbn [replace]. destruct (Ascii.eqb a c') eqn:Hac'.
    + apply Ascii.eqb_neq in Hd. by rewrite Hd, IH.
    + by rewrite Hac, IH.
Qed.

Lemma sep_char_not_query p : sep_char p ≠ "?"%char.
Proof. by destruct p. Qed.

Lemma normalizePath_twice p id :
  normalizePath p (normalizePath p id) = normalizePath p id.
Proof.
  rewrite !normalizePath_spec.
  rewrite before_absent.
  - apply replace_idemp.
  - apply includes_replace; [done|apply includes_before].
Qed.

(** X1: [normalizePath] is idempotent: a key is its own key. *)
Theorem normalizePath_idempotent p id :
  normalizePath p (normalizePath p id) = normalizePath p id.
Proof. apply normalizePath_twice. Qed.

(** X2: a key contains no ['?'], and on Windows no backslash. *)
Theorem normalizePath_clean_key p id :
  JsString.includes "?" (normalizePath p id) = false ∧
  JsString.includes "\" (normalizePath win32 id) = false.
Proof.
  rewrite !normalizePath_spec. split.
  - apply includes_replace; [done|apply includes_before].
  - by apply includes_replace_self.
Qed.

(** X3: whatever follows a ['?'] does not matter: an id and the id with a
    query suffix appended have the same key. *)
Theorem normalizePath_query_suffix p id q :
  normalizePath p (id +:+ String "?" q) = normalizePath p id.
Proof. by rewrite !normalizePath_spec, before_append. Qed.

(** X4: on Windows two ids that differ only in which of ['\'] and ['/'] they
    use as separators have the same key. *)
Theorem normalizePath_separator_style id id' :
  replace "\" "/" id = replace "\" "/" id' →
  normalizePath win32 id = normalizePath win32 id'.
Proof.
  intros Heq. rewrite !normalizePath_spec. cbn [sep_char].
  by rewrite <-!before_replace, Heq by done.
Qed.

Lemma normalizePath_separator_style_witness :
  replace "\" "/" "C:\proj/src\a.ts" = replace "\" "/" "C:/proj\src/a.ts" ∧
  normalizePath win32 "C:\proj/src\a.ts" = normalizePath win32 "C:/proj\src/a.ts".
Proof.
  split; [reflexivity|].
  apply (normalizePath_separator_style "C:\proj/src\a.ts" "C:/proj\src/a.ts").
  reflexivity.
Defined.

(** X5: on POSIX systems [normalizePath] only cuts the query: backslashes
    stay, so ids that differ in the separator they use are different keys
    there. *)
Theorem normalizePath_posix id :
  normalizePath posix id = before "?" id ∧
  (JsString.includes "?" id = false → normalizePath posix id = id).
Proof.
  assert (∀ s, replace "/" "/" s = s) as Hid.
  { induction s as [|a s IH]; [done|]. cbn [replace]. rewrite IH.
    destruct (Ascii.eqb_spec a "/"); by subst. }
  rewrite normalizePath_spec. cbn [sep_char]. rewrite Hid.
  split; [done|]. apply before_absent.
Qed.

Lemma normalizePath_posix_witness :
  JsString.includes "?" "C:\proj\a.ts" = false ∧
  normalizePath posix "C:\proj\a.ts" = "C:\proj\a.ts".
Proof.
  split; [reflexivity|].
  apply (proj2 (normalizePath_posix "C:\proj\a.ts")). reflexivity.
Defined.

(** X6: the short name of a key is the short name of the id it came from
    ([moduleParsed] and [closeBundle] pass keys to [getShortId]). *)
Theorem getShortId_of_key p id : getShortId p (normalizePath p id) = getShortId p id.
Proof. unfold getShortId. by rewrite normalizePath_twice. Qed.

(** ** [split] at the first occurrence of the separator *)

Lemma append_nil_l s : EmptyString +:+ s = s.
Proof. done. Qed.

Lemma append_cons x a b : String x a +:+ b = String x (a +:+ b).
Proof. done. Qed.

Lemma starts_with_app sep a b :
  String.length sep ≤ String.length a →
  JsString.starts_with sep (a +:+ b) = JsString.starts_with sep a.
Proof.
  revert a. induction sep as [|c sep IH]; intros a Hlen; [done|].
  destruct a as [|x a]; simpl in Hlen; [lia|].
  rewrite append_cons. cbn [JsString.starts_with].
  destruct (Ascii.eqb c x); [|done]. apply IH. lia.
Qed.

Lemma starts_with_self sep t : JsString.starts_with sep (sep +:+ t) = true.
Proof.
  induction sep as [|c sep IH]; [done|].
  rewrite append_cons. cbn [JsString.starts_with]. by rewrite Ascii.eqb_refl.
Qed.

Lemma includes_starts_with sep s :
  JsString.includes sep s = false → JsString.starts_with sep s = false.
Proof. destruct s; cbn [JsString.includes]; by intros [? _]%orb_false_iff. Qed.

Lemma includes_tail sep a s :
  JsString.includes sep (String a s) = false → JsString.includes sep s = false.
Proof. cbn [JsString.includes]. by intros [_ ?]%orb_false_iff. Qed.

Lemma split_go_skip sep a t :
  JsString.split_go sep (String.length a) (a +:+ t) = JsString.split_go sep 0 t.
Proof.
  induction a as [|x a IH]; [done|].
  rewrite append_cons. cbn [String.length JsString.split_go]. apply IH.
Qed.

(** A string that does not contain the separator is one piece. *)
Lemma split_absent sep s :
  JsString.includes sep s = false → JsString.split sep s = [s].
Proof.
  unfold JsString.split. induction s as [|a s IH]; intros Hs; [done|].
  cbn [JsString.split_go]. rewrite (includes_starts_with _ _ Hs).
  by rewrite IH by by eapply includes_tail.
Qed.

Lemma length_append_string a b : String.length (a +:+ b) = String.length a + String.length b.
Proof.
  induction a as [|x a IH]; [done|].
  rewrite append_cons. cbn [String.length]. by rewrite IH.
Qed.

Lemma append_assoc_string a b c : (a +:+ b) +:+ c = a +:+ (b +:+ c).
Proof.
  induction a as [|x a IH]; [done|]. rewrite !append_cons. by rewrite IH.
Qed.

(** When no occurrence of the separator starts inside [pre], splitting
    [pre ++ sep ++ t] gives [pre] and then the pieces of [t]. [init] is the
    separator without its last character: an occurrence that starts inside
    [pre] lies inside [pre ++ init]. *)
Lemma split_first sep init l pre t :
  sep = init +:+ String l EmptyString →
  JsString.includes sep (pre +:+ init) = false →
  JsString.split sep (pre +:+ sep +:+ t) = pre :: JsString.split sep t.
Proof.
  intros Hsep. unfold JsString.split. induction pre as [|a pre IH]; intros Hpre.
  - destruct sep as [|c sep']; [by destruct init|].
    change (EmptyString +:+ String c sep' +:+ t) with (String c (sep' +:+ t)).
    cbn [JsString.split_go].
    change (String c (sep' +:+ t)) with (String c sep' +:+ t).
    rewrite starts_with_self. cbn [String.length]. rewrite Nat.sub_1_r. cbn [Nat.pred].
    by rewrite split_go_skip.
  - change (String a pre +:+ sep +:+ t) with (String a (pre +:+ sep +:+ t)).
    cbn [JsString.split_go].
    assert (JsString.starts_with sep (String a (pre +:+ sep +:+ t)) = false) as ->.
    { rewrite Hsep, append_assoc_string, <-(append_assoc_string pre).
      change (String a ((pre +:+ init) +:+ (String l EmptyString +:+ t)))
        with (String a (pre +:+ init) +:+ (String l EmptyString +:+ t)).
      rewrite starts_with_app.
      - rewrite <-Hsep. by apply includes_starts_with.
      - rewrite length_append_string. cbn [String.length].
        rewrite !length_append_string. simpl. lia. }
    rewrite IH by by eapply includes_tail. done.
Qed.

Lemma before_first_piece c sep t :
  before c (hd EmptyString (JsString.split (String c sep) t)) = before c t.
Proof.
  unfold JsString.split. induction t as [|a t IH]; [done|].
  cbn [JsString.split_go].
  destruct (JsString.starts_with (String c sep) (String a t)) eqn:Hst.
  - simpl in Hst. destruct (Ascii.eqb_spec c a) as [->|]; [|done].
    simpl. by rewrite Ascii.eqb_refl.
  - destruct (JsString.split_go (String c sep) 0 t) as [|piece pieces] eqn:Ht.
    { by apply split_go_nonempty in Ht. }
    simpl in *. by rewrite IH.
Qed.

Lemma or_else_truthy s alt :
  s ≠ EmptyString → JsString.or_else (Some s) alt = Some s.
Proof. by destruct s. Qed.

Lemma or_else_falsy alt : JsString.or_else None alt = alt ∧
                          JsString.or_else (Some EmptyString) alt = alt.
Proof. done. Qed.

(** ** [bucket] and [getShortId] *)

(** X7: a module whose id has no ["/node_modules/"] is counted under the
    project's own bucket. *)
Theorem bucket_of_project_file id :
  JsString.includes "/node_modules/" id = false → bucket id = project_source.
Proof. intros Hid. unfold bucket. by rewrite split_absent. Qed.

Lemma bucket_of_project_file_witness :
  JsString.includes "/node_modules/" "/home/u/proj/src/main.ts" = false ∧
  bucket "/home/u/proj/src/main.ts" = project_source.
Proof.
  split; [reflexivity|].
  apply (bucket_of_project_file "/home/u/proj/src/main.ts"). reflexivity.
Defined.

(** X8: a module under ["/node_modules/"] is counted under the directory
    that follows the first ["/node_modules/"] of its id, that is the text up
    to the next ['/']; when that text is empty the module falls back to the
    project's own bucket. *)
Theorem bucket_of_dependency pre t :
  JsString.includes "/node_modules/" (pre +:+ "/node_modules") = false →
  bucket (pre +:+ "/node_modules/" +:+ t) =
  match before "/" t with
  | EmptyString => project_source
  | dir => dir
  end.
Proof.
  intros Hpre. unfold bucket.
  rewrite (split_first "/node_modules/" "/node_modules" "/") by done.
  destruct (JsString.split "/node_modules/" t) as [|piece pieces] eqn:Ht.
  { by apply split_go_nonempty in Ht. }
  assert (before "/" piece = before "/" t) as Hpiece.
  { rewrite <-(before_first_piece "/" "node_modules/" t), Ht. done. }
  cbn [lookup list_lookup]. rewrite split_char_hd, Hpiece.
  by destruct (before "/" t).
Qed.

Lemma bucket_of_dependency_witness :
  JsString.includes "/node_modules/" ("/home/u/proj" +:+ "/node_modules") = false ∧
  bucket "/home/u/proj/node_modules/@vue/shared/dist/shared.js" = "@vue".
Proof.
  split; [reflexivity|].
  apply (bucket_of_dependency "/home/u/proj" "@vue/shared/dist/shared.js"). reflexivity.
Defined.

(** X9: when the key of an id contains neither ["/src/"] nor
    ["/node_modules/"], its short name is the key itself. *)
Theorem getShortId_plain p id :
  JsString.includes "/src/" (normalizePath p id) = false →
  JsString.includes "/node_modules/" (normalizePath p id) = false →
  getShortId p id = normalizePath p id.
Proof.
  intros Hsrc Hdep. unfold getShortId. by rewrite !split_absent.
Qed.

Lemma getShortId_plain_witness :
  JsString.includes "/src/" (normalizePath win32 "\0vite\modulepreload-polyfill?x") = false ∧
  JsString.includes "/node_modules/"
    (normalizePath win32 "\0vite\modulepreload-polyfill?x") = false ∧
  getShortId win32 "\0vite\modulepreload-polyfill?x" = "/0vite/modulepreload-polyfill".
Proof.
  split; [reflexivity|]. split; [reflexivity|].
  apply (getShortId_plain win32 "\0vite\modulepreload-polyfill?x"); reflexivity.
Defined.

(** X10: when the key is [pre ++ "/src/" ++ t] with the first ["/src/"] where
    shown, the short name is [t] up to its next ["/src/"], provided that
    piece is not empty; ["/node_modules/"] is not looked at.  So the short
    name is all of [t] when [t] is not empty and has no further ["/src/"]. *)
Theorem getShortId_src p id pre t :
  normalizePath p id = pre +:+ "/src/" +:+ t →
  JsString.includes "/src/" (pre +:+ "/src") = false →
  (hd EmptyString (JsString.split "/src/" t) ≠ EmptyString →
   getShortId p id = hd EmptyString (JsString.split "/src/" t)) ∧
  (t ≠ EmptyString → JsString.includes "/src/" t = false → getShortId p id = t).
Proof.
  intros Hkey Hpre.
  assert (hd EmptyString (JsString.split "/src/" t) ≠ EmptyString →
          getShortId p id = hd EmptyString (JsString.split "/src/" t)) as Hpiece.
  { intros Hne. unfold getShortId. rewrite Hkey.
    rewrite (split_first "/src/" "/src" "/") by done.
    destruct (JsString.split "/src/" t) as [|piece pieces] eqn:Ht.
    { by apply split_go_nonempty in Ht. }
    cbn [lookup list_lookup hd] in *. by rewrite or_else_truthy. }
  split; [done|]. intros Hne Ht.
  rewrite (split_absent _ _ Ht) in Hpiece. by apply Hpiece.
Qed.

Lemma getShortId_src_witness :
  normalizePath posix "/p/node_modules/lib/src/x.js?v=1" =
    "/p/node_modules/lib" +:+ "/src/" +:+ "x.js" ∧
  JsString.includes "/src/" ("/p/node_modules/lib" +:+ "/src") = false ∧
  getShortId posix "/p/node_modules/lib/src/x.js?v=1" = "x.js".
Proof.
  split; [reflexivity|]. split; [reflexivity|].
  apply (proj2 (getShortId_src posix "/p/node_modules/lib/src/x.js?v=1"
                  "/p/node_modules/lib" "x.js" eq_refl eq_refl)); [discriminate|reflexivity].
Defined.

(** X11: when the key has no ["/src/"] and is [pre ++ "/node_modules/" ++ t]
    with the first ["/node_modules/"] where shown, the short name is [t] up
    to its next ["/node_modules/"], provided that piece is not empty. *)
Theorem getShortId_dependency p id pre t :
  normalizePath p id = pre +:+ "/node_modules/" +:+ t →
  JsString.includes "/src/" (normalizePath p id) = false →
  JsString.includes "/node_modules/" (pre +:+ "/node_modules") = false →
  hd EmptyString (JsString.split "/node_modules/" t) ≠ EmptyString →
  getShortId p id = hd EmptyString (JsString.split "/node_modules/" t).
Proof.
  intros Hkey Hsrc Hpre Hne. unfold getShortId.
  rewrite (split_absent "/src/") by done. rewrite Hkey.
  rewrite (split_first "/node_modules/" "/node_modules" "/") by done.
  destruct (JsString.split "/node_modules/" t) as [|piece pieces] eqn:Ht.
  { by apply split_go_nonempty in Ht. }
  cbn [lookup list_lookup hd] in *.
  rewrite (proj1 (or_else_falsy _)). by rewrite or_else_truthy.
Qed.

Lemma getShortId_dependency_witness :
  getShortId posix "/p/node_modules/a/node_modules/b/index.js" = "a".
Proof.
  apply (getShortId_dependency posix "/p/node_modules/a/node_modules/b/index.js"
           "/p" "a/node_modules/b/index.js"); [reflexivity..|discriminate].
Defined.

(** ** Starts and completions of one key *)

Section KeyFacts.
Context {V : Type}.
Implicit Types (m : list (string * V)) (k : string) (v : V).

Lemma get_set_ne k k' v m : k ≠ k' → JsMap.get k' (JsMap.set k v m) = JsMap.get k' m.
Proof.
  intros Hne. induction m as [|[k0 v0] m IH]; simpl.
  - by destruct (String.eqb_spec k k').
  - destruct (String.eqb_spec k0 k) as [->|Hk0]; simpl.
    + by destruct (String.eqb_spec k k').
    + by rewrite IH.
Qed.

Lemma get_None_keys k m : JsMap.get k m = None ↔ k ∉ JsMap.keys m.
Proof.
  unfold JsMap.keys. induction m as [|[k0 v0] m IH]; simpl.
  - split; [intros _; apply not_elem_of_nil|done].
  - rewrite not_elem_of_cons. destruct (String.eqb_spec k0 k) as [->|Hk0].
    + split; [done|]. by intros [? _].
    + rewrite IH. split; [by split|by intros [_ ?]].
Qed.
End KeyFacts.

Lemma restart_then_complete p id id' id'' t0 t1 t2 t3 st :
  normalizePath p id' = normalizePath p id →
  normalizePath p id'' = normalizePath p id →
  t1 ≠ 0%Z →
  let st' := exec p [Transform id t0; Transform id' t1; ModuleParsed id'' t2 t3] st in
  JsMap.get (normalizePath p id) (moduleTransformTimes st') = Some (t2 - t1)%Z ∧
  totalModules st' = totalModules (transform p id t0 st).1 ∧
  startTimes st' !! normalizePath p id = None.
Proof.
  intros Hid' Hid'' Hnz. cbv zeta. rewrite exec_cons. unfold step at 1.
  set (st1 := (transform p id t0 st).1).
  destruct (start_then_complete p id' id'' t1 t2 t3 st1
              (eq_trans Hid' (eq_sym Hid'')) Hnz) as (Hget & _ & Hstart).
  rewrite Hid' in Hget, Hstart. split_and!; [done| |done].
  rewrite !exec_cons, exec_nil. unfold step.
  destruct (transform_fields p id t0 st) as (_ & _ & _ & _ & _ & Hin & _).
  destruct (transform_fields p id' t1 st1) as (_ & _ & Hs & _ & _ & _ & Htot).
  rewrite Hid' in Htot. rewrite bool_decide_eq_true_2 in Htot by done.
  destruct (moduleParsed_record p id'' t2 t3 (transform p id' t1 st1).1 t1)
    as (_ & _ & _ & _ & Htot' & _); [|done|fold st1; by rewrite Htot', Htot].
  rewrite Hs, Hid'', Hid'. apply lookup_insert_eq.
Qed.

(** X12: a second [transform] of a key whose start is pending overwrites the
    pending clock reading with its own reading [t1] and is not counted again.
    The [moduleParsed] that follows goes by [t1]: when [t1] is not 0 it
    records the time since the second start, clears the pending start and
    leaves [totalModules]; when [t1] is 0 it changes nothing and logs
    nothing, and the start stays pending. *)
Theorem restart_resets_clock p id id' id'' t0 t1 t2 t3 st :
  normalizePath p id' = normalizePath p id →
  normalizePath p id'' = normalizePath p id →
  let key := normalizePath p id in
  let st2 := exec p [Transform id t0; Transform id' t1] st in
  let st3 := exec p [Transform id t0; Transform id' t1; ModuleParsed id'' t2 t3] st in
  startTimes st2 !! key = Some t1 ∧
  totalModules st2 = totalModules (transform p id t0 st).1 ∧
  (t1 ≠ 0%Z →
   JsMap.get key (moduleTransformTimes st3) = Some (t2 - t1)%Z ∧
   totalModules st3 = totalModules st2 ∧
   startTimes st3 !! key = None) ∧
  (t1 = 0%Z → moduleParsed p id'' t2 t3 st2 = (st2, []) ∧ st3 = st2).
Proof.
  intros Hid' Hid'' key st2 st3.
  assert (st2 = (transform p id' t1 (transform p id t0 st).1).1) as Hst2 by done.
  assert (st3 = (moduleParsed p id'' t2 t3 st2).1) as Hst3 by done.
  destruct (transform_fields p id t0 st) as (_ & _ & _ & _ & _ & Hin & _).
  destruct (transform_fields p id' t1 (transform p id t0 st).1)
    as (_ & _ & Hs & _ & _ & _ & Htot).
  rewrite <-Hst2 in Hs, Htot. rewrite Hid' in Hs, Htot.
  rewrite bool_decide_eq_true_2 in Htot by done.
  assert (startTimes st2 !! key = Some t1) as Hpend.
  { rewrite Hs. apply lookup_insert_eq. }
  split_and!; [done|done| |].
  - intros Hnz.
    destruct (restart_then_complete p id id' id'' t0 t1 t2 t3 st Hid' Hid'' Hnz)
      as (Hget & Htot3 & Hstart).
    fold st3 in Hget, Htot3, Hstart. split_and!; [done| |done].
    by rewrite Htot3, Htot.
  - intros ->.
    assert (moduleParsed p id'' t2 t3 st2 = (st2, [])) as Hskip.
    { apply moduleParsed_skip. unfold records. rewrite Hid''. fold key. by rewrite Hpend. }
    split; [done|]. by rewrite Hst3, Hskip.
Qed.

Lemma restart_resets_clock_witness :
  let st' := exec posix [Transform "/src/a.ts" 5; Transform "/src/a.ts?t=1" 30;
                         ModuleParsed "/src/a.ts" 100 100] init in
  30%Z ≠ 0%Z ∧
  JsMap.get "/src/a.ts" (moduleTransformTimes st') = Some 70%Z ∧ totalModules st' = 1.
Proof.
  destruct (restart_resets_clock posix "/src/a.ts" "/src/a.ts?t=1" "/src/a.ts" 5 30 100 100
              init eq_refl eq_refl) as (_ & Htot & Hrec & _).
  destruct Hrec as (Hget & Htot3 & _); [discriminate|].
  split; [discriminate|]. split; [exact Hget|].
  etransitivity; [exact Htot3|exact Htot].
Defined.

(** X13: a start is used by one completion at most: when [moduleParsed] is
    called twice in a row for the same key, the second call changes nothing
    and logs nothing, whatever the first one did. *)
Theorem second_completion_noop p id id' now now2 now' now2' st :
  normalizePath p id' = normalizePath p id →
  let st1 := (moduleParsed p id now now2 st).1 in
  moduleParsed p id' now' now2' st1 = (st1, []).
Proof.
  intros Hid st1. apply moduleParsed_skip. unfold records. rewrite Hid.
  destruct (records p id st) eqn:Hrec.
  - apply records_spec in Hrec as (s & Hs & Hnz).
    destruct (moduleParsed_record p id now now2 st s Hs Hnz) as (_ & _ & Hstarts & _).
    fold st1 in Hstarts. by rewrite Hstarts, lookup_delete_eq.
  - unfold st1. rewrite moduleParsed_skip by done. exact Hrec.
Qed.

Lemma second_completion_noop_witness :
  let st := exec posix [BuildStart 1; Transform "/src/a.ts" 2] init in
  let st1 := (moduleParsed posix "/src/a.ts" 300 300 st).1 in
  moduleParsed posix "/src/a.ts?x" 900 900 st1 = (st1, []).
Proof.
  apply (second_completion_noop posix "/src/a.ts" "/src/a.ts?x"). reflexivity.
Defined.

(** X14: [buildStart] forgets everything: what was called before it, and the
    state it was called in, change neither the state nor the log of what
    follows. *)
Theorem buildStart_forgets p cs now cs' st st' :
  exec p (cs ++ BuildStart now :: cs') st = exec p (BuildStart now :: cs') st' ∧
  output p (BuildStart now :: cs') (exec p cs st) = output p (BuildStart now :: cs') st'.
Proof. by rewrite exec_app, !exec_cons, !output_cons. Qed.

(** X15: [transform] and [moduleParsed] only touch the entries of the key of
    their id: the pending start and the recorded duration of every other key
    are as before, and [transform] adds no other key to [processedIds]. *)
Theorem hooks_touch_own_key p id now now2 st k :
  k ≠ normalizePath p id →
  let st1 := (transform p id now st).1 in
  let st2 := (moduleParsed p id now now2 st).1 in
  (startTimes st1 !! k = startTimes st !! k ∧
   JsMap.get k (moduleTransformTimes st1) = JsMap.get k (moduleTransformTimes st) ∧
   (k ∈ processedIds st1 ↔ k ∈ processedIds st)) ∧
  (startTimes st2 !! k = startTimes st !! k ∧
   JsMap.get k (moduleTransformTimes st2) = JsMap.get k (moduleTransformTimes st) ∧
   processedIds st2 = processedIds st).
Proof.
  intros Hk st1 st2. split.
  - destruct (transform_fields p id now st) as (Htimes & _ & Hstarts & _).
    fold st1 in Htimes, Hstarts. rewrite Htimes, Hstarts, lookup_insert_ne by done.
    split_and!; [done..|].
    unfold st1, transform. simpl. case_bool_decide; simpl; set_solver.
  - destruct (records p id st) eqn:Hrec; cycle 1.
    { unfold st2. by rewrite moduleParsed_skip. }
    apply records_spec in Hrec as (s & Hs & Hnz).
    destruct (moduleParsed_record p id now now2 st s Hs Hnz)
      as (Htimes & _ & Hstarts & Hids & _).
    fold st2 in Htimes, Hstarts, Hids.
    rewrite Htimes, Hstarts, Hids, lookup_delete_ne, get_set_ne by done. done.
Qed.

Lemma hooks_touch_own_key_witness :
  let st := exec posix [BuildStart 1; Transform "/src/a.ts" 2; Transform "/src/b.ts" 3] init in
  "/src/b.ts" ≠ normalizePath posix "/src/a.ts?x" ∧
  startTimes (moduleParsed posix "/src/a.ts?x" 9 9 st).1 !! "/src/b.ts" = Some 3%Z.
Proof.
  split; [discriminate|].
  destruct (hooks_touch_own_key posix "/src/a.ts?x" 9 9
              (exec posix [BuildStart 1; Transform "/src/a.ts" 2; Transform "/src/b.ts" 3] init)
              "/src/b.ts") as [_ (Hstart & _)]; [discriminate|].
  exact Hstart.
Defined.

(** ** What a build keeps *)

Section BuildFacts.
Variable p : platform.

Lemma step_grows c st :
  (∀ now, c ≠ BuildStart now) →
  let st' := (step p c st).1 in
  processedIds st ⊆ processedIds st' ∧
  totalModules st ≤ totalModules st' ∧
  processedModules st ≤ processedModules st' ∧
  length (slowModules st) ≤ length (slowModules st') ∧
  (∀ k, k ∈ JsMap.keys (moduleTransformTimes st) →
        k ∈ JsMap.keys (moduleTransformTimes st')) ∧
  buildStartTime st' = buildStartTime st.
Proof.
  intros Hc. destruct c as [now|id now|id now now2|]; cbn [step].
  - by destruct (Hc now).
  - destruct (transform_fields p id now st) as (Ht & Hs & _ & Hp & Hb & _ & Htot).
    cbv zeta. rewrite Ht, Hs, Hp, Hb, Htot. split_and!; try done.
    + intros k Hk. apply transform_ids. by right.
    + case_bool_decide; lia.
  - destruct (records p id st) eqn:Hrec; cycle 1.
    { by rewrite moduleParsed_skip. }
    apply records_spec in Hrec as (s & Hs & Hnz).
    destruct (moduleParsed_record p id now now2 st s Hs Hnz)
      as (Ht & Hslow & _ & Hids & Htot & Hp & Hb).
    cbv zeta. rewrite Ht, Hslow, Hids, Htot, Hp, Hb. split_and!; try done; try lia.
    + destruct (200 <? _)%Z; [rewrite length_app; simpl|]; lia.
    + intros k Hk. apply elem_of_keys_set. by right.
  - destruct (closeBundle_fields p st) as (Ht & Hslow & _ & Hids & Htot & Hp & Hb).
    cbv zeta. rewrite Ht, Hslow, Hids, Htot, Hp, Hb, sort_desc_length. done.
Qed.

Lemma step_outliers c st :
  Forall (λ m, (200 < sm_time m)%Z ∧ sm_id m ∈ JsMap.keys (moduleTransformTimes st))
    (slowModules st) →
  length (slowModules st) ≤ processedModules st →
  let st' := (step p c st).1 in
  Forall (λ m, (200 < sm_time m)%Z ∧ sm_id m ∈ JsMap.keys (moduleTransformTimes st'))
    (slowModules st') ∧
  length (slowModules st') ≤ processedModules st'.
Proof.
  intros Hall Hlen. destruct c as [now|id now|id now now2|]; cbn [step].
  - split; [constructor|done].
  - destruct (transform_fields p id now st) as (Ht & Hs & _ & Hp & _).
    cbv zeta. by rewrite Ht, Hs, Hp.
  - destruct (records p id st) eqn:Hrec; cycle 1.
    { by rewrite moduleParsed_skip. }
    apply records_spec in Hrec as (s & Hs & Hnz).
    destruct (moduleParsed_record p id now now2 st s Hs Hnz)
      as (Ht & Hslow & _ & _ & _ & Hp & _).
    cbv zeta. rewrite Ht, Hslow, Hp.
    assert (Forall (λ m, (200 < sm_time m)%Z ∧
                         sm_id m ∈ JsMap.keys (JsMap.set (normalizePath p id) (now - s)%Z
                                                 (moduleTransformTimes st)))
              (slowModules st)) as Hold.
    { eapply Forall_impl; [exact Hall|]. intros m [? ?]. split; [done|].
      apply elem_of_keys_set. by right. }
    destruct (Z.ltb_spec 200 (now - s)) as [Hlt|Hge].
    + split; [|rewrite length_app; simpl; lia].
      apply Forall_app. split; [done|]. constructor; [|constructor].
      split; [done|]. apply elem_of_keys_set. by left.
    + split; [done|lia].
  - destruct (closeBundle_fields p st) as (Ht & Hslow & _ & _ & _ & Hp & _).
    cbv zeta. rewrite Ht, Hslow, Hp, sort_desc_length. split; [|done].
    by rewrite sort_desc_perm.
Qed.
End BuildFacts.

(** X16: between two [buildStart]s nothing is forgotten: [processedIds] and
    the keys of [moduleTransformTimes] only gain members, the two counters
    and the number of slow modules never decrease, and [buildStartTime]
    stays. *)
Theorem build_only_grows p cs st :
  Forall (λ c, ∀ now, c ≠ BuildStart now) cs →
  let st' := exec p cs st in
  processedIds st ⊆ processedIds st' ∧
  totalModules st ≤ totalModules st' ∧
  processedModules st ≤ processedModules st' ∧
  length (slowModules st) ≤ length (slowModules st') ∧
  (∀ k, k ∈ JsMap.keys (moduleTransformTimes st) →
        k ∈ JsMap.keys (moduleTransformTimes st')) ∧
  buildStartTime st' = buildStartTime st.
Proof.
  intros Hcs. revert st. induction Hcs as [|c cs Hc _ IH]; intros st.
  { rewrite exec_nil. by split_and!. }
  rewrite exec_cons. cbv zeta.
  destruct (step_grows p c st Hc) as (Hids & Htot & Hp & Hslow & Hkeys & Hb).
  destruct (IH (step p c st).1) as (Hids' & Htot' & Hp' & Hslow' & Hkeys' & Hb').
  split_and!; [set_solver|lia|lia|lia|auto|congruence].
Qed.

Lemma build_only_grows_witness :
  let cs := [Transform "/src/b.ts" 4; ModuleParsed "/src/a.ts" 300 300; CloseBundle] in
  let st := exec posix [BuildStart 1; Transform "/src/a.ts" 2] init in
  Forall (λ c, ∀ now, c ≠ BuildStart now) cs ∧
  totalModules st ≤ totalModules (exec posix cs st).
Proof.
  assert (Forall (λ c, ∀ now, c ≠ BuildStart now)
            [Transform "/src/b.ts" 4; ModuleParsed "/src/a.ts" 300 300; CloseBundle])
    as Hcs by (repeat constructor; discriminate).
  split; [exact Hcs|].
  exact (proj1 (proj2 (build_only_grows posix _
                         (exec posix [BuildStart 1; Transform "/src/a.ts" 2] init) Hcs))).
Defined.

(** X17: in every reachable state each entry of [slowModules] has a time
    above 200 and an id that is a key of [moduleTransformTimes], and there
    are at most [processedModules] of them. *)
Theorem outliers_are_timed p cs :
  let st := exec p cs init in
  Forall (λ m, (200 < sm_time m)%Z ∧ sm_id m ∈ JsMap.keys (moduleTransformTimes st))
    (slowModules st) ∧
  length (slowModules st) ≤ processedModules st.
Proof.
  assert (∀ st,
    Forall (λ m, (200 < sm_time m)%Z ∧ sm_id m ∈ JsMap.keys (moduleTransformTimes st))
      (slowModules st) ∧ length (slowModules st) ≤ processedModules st →
    Forall (λ m, (200 < sm_time m)%Z ∧
                 sm_id m ∈ JsMap.keys (moduleTransformTimes (exec p cs st)))
      (slowModules (exec p cs st)) ∧
    length (slowModules (exec p cs st)) ≤ processedModules (exec p cs st)) as Hall.
  { induction cs as [|c cs IH]; intros st Hst; [done|].
    rewrite exec_cons. apply IH. destruct Hst. by apply step_outliers. }
  apply Hall. split; [constructor|done].
Qed.

(** X18: in every reachable state each key with a pending start is in
    [processedIds], so there are at most [totalModules] pending starts. *)
Theorem pending_starts_are_known p cs :
  let st := exec p cs init in
  dom (startTimes st) ⊆ processedIds st ∧ size (startTimes st) ≤ totalModules st.
Proof.
  intros st.
  destruct (exec_consistent p cs init init_consistent) as [Htot Hpend _ _ _ _ _].
  fold st in Htot, Hpend. split; [done|].
  rewrite Htot, <-size_dom. by apply subseteq_size.
Qed.

(** ** Durations under a clock that does not run backwards *)

Lemma Forall_values_set {V} (Q : V → Prop) k v (m : list (string * V)) :
  Forall (λ e, Q e.2) m → Q v → Forall (λ e, Q e.2) (JsMap.set k v m).
Proof.
  intros Hm Hv. induction Hm as [|[k0 v0] m H0 Hm IH]; simpl.
  - by repeat constructor.
  - destruct (String.eqb k0 k); by constructor.
Qed.

Lemma exec_durations p cs st lo :
  map_Forall (λ _ s, (s ≤ lo)%Z) (startTimes st) →
  Forall (λ e, (0 ≤ e.2)%Z) (moduleTransformTimes st) →
  Forall (Z.le lo) (cs ≫= readings) →
  StronglySorted Z.le (cs ≫= readings) →
  Forall (λ e, (0 ≤ e.2)%Z) (moduleTransformTimes (exec p cs st)).
Proof.
  revert st lo. induction cs as [|c cs IH]; intros st lo Hpend Hdur Hlo Hsorted; [done|].
  rewrite bind_cons in Hlo, Hsorted. rewrite exec_cons.
  destruct c as [now|id now|id now now2|]; cbn [readings app step] in *.
  - apply StronglySorted_inv in Hsorted as [Hsorted Hnow].
    apply (IH _ now); [apply map_Forall_empty|constructor|done|done].
  - apply StronglySorted_inv in Hsorted as [Hsorted Hnow].
    apply Forall_cons in Hlo as [Hlonow _].
    destruct (transform_fields p id now st) as (Ht & _ & Hs & _).
    apply (IH _ now); [|by rewrite Ht|done|done].
    rewrite Hs. apply map_Forall_insert_2; [lia|].
    eapply map_Forall_impl; [exact Hpend|]. intros k s Hk. simpl in *. lia.
  - apply StronglySorted_inv in Hsorted as [Hsorted Hnow].
    apply StronglySorted_inv in Hsorted as [Hsorted Hnow2].
    apply Forall_cons in Hlo as [Hlonow _].
    apply Forall_cons in Hnow as [Hnownow2 _].
    assert (map_Forall (λ _ s, (s ≤ now2)%Z) (startTimes st)) as Hpend2.
    { eapply map_Forall_impl; [exact Hpend|]. intros k s Hk. simpl in *. lia. }
    destruct (records p id st) eqn:Hrec; cycle 1.
    { rewrite moduleParsed_skip by done. by apply (IH _ now2). }
    apply records_spec in Hrec as (s & Hs & Hnz).
    destruct (moduleParsed_record p id now now2 st s Hs Hnz) as (Ht & _ & Hstarts & _).
    apply (IH _ now2); [| |done|done].
    + rewrite Hstarts. by apply map_Forall_delete.
    + rewrite Ht. apply Forall_values_set; [done|].
      pose proof (Hpend _ _ Hs) as Hle. simpl in Hle. lia.
  - destruct (closeBundle_fields p st) as (Ht & _ & Hs & _).
    apply (IH _ lo); [by rewrite Hs|by rewrite Ht|done|done].
Qed.

(** X19: when the clock readings of the calls, in the order they are taken,
    never decrease, every duration in [moduleTransformTimes] is at least 0. *)
Theorem durations_nonnegative p cs :
  StronglySorted Z.le (cs ≫= readings) →
  Forall (λ e, (0 ≤ e.2)%Z) (moduleTransformTimes (exec p cs init)).
Proof.
  intros Hsorted.
  apply (exec_durations p cs init (hd 0%Z (cs ≫= readings)));
    [apply map_Forall_empty|constructor| |done].
  destruct (cs ≫= readings) as [|r rs]; [constructor|].
  apply StronglySorted_inv in Hsorted as [_ Hr]. constructor; [simpl; lia|done].
Qed.

Lemma durations_nonnegative_witness :
  let cs := [BuildStart 0; Transform "/src/a.ts" 3; Transform "/src/b.ts" 3;
             ModuleParsed "/src/b.ts" 3 4; ModuleParsed "/src/a.ts" 250 250; CloseBundle] in
  StronglySorted Z.le (cs ≫= readings) ∧
  Forall (λ e, (0 ≤ e.2)%Z) (moduleTransformTimes (exec posix cs init)).
Proof.
  assert (StronglySorted Z.le
            ([BuildStart 0; Transform "/src/a.ts" 3; Transform "/src/b.ts" 3;
              ModuleParsed "/src/b.ts" 3 4; ModuleParsed "/src/a.ts" 250 250; CloseBundle]
               ≫= readings)) as Hsorted.
  { vm_compute. repeat constructor; discriminate. }
  split; [exact Hsorted|].
  exact (durations_nonnegative posix _ Hsorted).
Defined.

(** ** The per-directory statistics *)

Lemma dirStats_acc (m : list (string * Z)) acc dir :
  JsMap.get dir (foldl add_stat acc m) =
  let es := filter (λ e : string * Z, bucket e.1 = dir) m in
  match JsMap.get dir acc with
  | Some d => Some (DirStat (ds_count d + length es) (ds_time d + foldr Z.add 0%Z es.*2))
  | None =>
      match es with
      | [] => None
      | _ => Some (DirStat (length es) (foldr Z.add 0%Z es.*2))
      end
  end.
Proof.
  revert acc. induction m as [|e m IH]; intros acc.
  { simpl. destruct (JsMap.get dir acc) as [[c t]|]; [|done].
    simpl. f_equal. f_equal; lia. }
  cbn [foldl]. rewrite IH. cbv zeta.
  destruct (decide (bucket e.1 = dir)) as [He|He].
  - rewrite filter_cons_True by done.
    unfold add_stat at 1. rewrite He, get_set_eq.
    destruct (JsMap.get dir acc) as [d|]; csimpl; f_equal; f_equal; lia.
  - rewrite filter_cons_False by done.
    unfold add_stat at 1. by rewrite get_set_ne.
Qed.

(** X20: the loop of [closeBundle] that fills [dirStats] gives every bucket
    the number of entries of [moduleTransformTimes] whose key is in that
    bucket and the sum of their times; a bucket without entries is absent. *)
Theorem dirStats_per_bucket (m : list (string * Z)) dir :
  JsMap.get dir (foldl add_stat [] m) =
  match filter (λ e : string * Z, bucket e.1 = dir) m with
  | [] => None
  | es => Some (DirStat (length es) (foldr Z.add 0%Z es.*2))
  end.
Proof.
  rewrite dirStats_acc. cbn [JsMap.get].
  by destruct (filter _ m).
Qed.

(** ** The report *)

Section ReportFacts.
Variable p : platform.

Lemma closeBundle_cons st m ms :
  slowModules st = m :: ms →
  closeBundle p st =
  (Profiler (moduleTransformTimes st) (sort_desc sm_time (slowModules st)) (startTimes st)
     (processedIds st) (totalModules st) (processedModules st) (buildStartTime st),
   [LogReportHeader;
    LogSlowest ((λ m, (sm_time m, getShortId p (sm_id m))) <$>
                take 10 (sort_desc sm_time (slowModules st)));
    LogDirStats
      ((λ e : string * dirStat,
          (e.1, ds_count e.2, JsNum.div (JsNum.of_Z (ds_time e.2)) (JsNum.of_Z 1000))) <$>
       take 10 (sort_desc (λ e : string * dirStat, ds_time e.2)
                  (foldl add_stat [] (moduleTransformTimes st))));
    LogSummary (totalModules st) (length (sort_desc sm_time (slowModules st)))
      (JsNum.div
         (JsNum.of_Z (foldl Z.add 0%Z (JsMap.values (moduleTransformTimes st))))
         (JsNum.of_Z 1000))
      (JsNum.div
         (JsNum.of_Z (foldl Z.add 0%Z (JsMap.values (moduleTransformTimes st))))
         (JsNum.of_nat (totalModules st)))]).
Proof. intros Hslow. unfold closeBundle. by rewrite Hslow. Qed.

Lemma sort_desc_cons_inv {A} (key : A → Z) l x xs :
  l = x :: xs → ∃ y ys, sort_desc key l = y :: ys.
Proof.
  intros ->. destruct (sort_desc key (x :: xs)) as [|y ys] eqn:Hs; [|eauto].
  apply (f_equal length) in Hs. rewrite sort_desc_length in Hs. done.
Qed.
End ReportFacts.

(** X21: reporting twice is reporting once: a second [closeBundle] right
    after the first leaves the state of the first and logs the same lines. *)
Theorem closeBundle_idempotent p st :
  closeBundle p (closeBundle p st).1 = closeBundle p st.
Proof.
  destruct (slowModules st) as [|m ms] eqn:Hslow.
  { rewrite (closeBundle_empty p st Hslow). by apply closeBundle_empty. }
  rewrite (closeBundle_cons p st m ms Hslow).
  destruct (sort_desc_cons_inv sm_time (slowModules st) m ms Hslow) as (y & ys & Hsorted).
  cbn [fst]. erewrite closeBundle_cons by (cbn [slowModules]; exact Hsorted).
  cbn [moduleTransformTimes slowModules startTimes processedIds totalModules
       processedModules buildStartTime].
  by rewrite (sort_desc_id sm_time (sort_desc sm_time (slowModules st)))
    by apply sort_desc_sorted.
Qed.

Section SortStable.
Context {A : Type} (key : A → Z).

Lemma insert_desc_filter t x l :
  filter (λ y, key y = t) (insert_desc key x l) = filter (λ y, key y = t) (x :: l).
Proof.
  induction l as [|y l IH]; [done|]. cbn [insert_desc].
  destruct (Z.ltb_spec (key x) (key y)) as [Hlt|Hge]; [|done].
  rewrite (filter_cons _ y), IH, !(filter_cons _ x), (filter_cons _ y).
  repeat case_decide; try done. lia.
Qed.

Lemma sort_desc_stable t l :
  filter (λ y, key y = t) (sort_desc key l) = filter (λ y, key y = t) l.
Proof.
  induction l as [|x l IH]; [done|]. cbn [sort_desc foldr].
  rewrite insert_desc_filter, !(filter_cons _ x).
  fold (sort_desc key l). by rewrite IH.
Qed.

Lemma take_sorted n l :
  StronglySorted (descending key) l → StronglySorted (descending key) (take n l).
Proof.
  intros Hl. rewrite <-(take_drop n l) in Hl. by apply StronglySorted_app_1_l in Hl.
Qed.
End SortStable.

(** X22: the report lists the slowest modules first.  When there is a slow
    module, [closeBundle] logs four messages; the list of slowest modules
    has [min 10 n] rows for [n] slow modules, its times never increase, its
    first time is the largest of all slow modules, and each row is the time
    and short name of a slow module; the summary gives [totalModules] and
    [n], and there are at most 10 directory rows. *)
Theorem report_slowest p st :
  slowModules st ≠ [] →
  ∃ rows dirs secs avg,
    (closeBundle p st).2 =
      [LogReportHeader; LogSlowest rows; LogDirStats dirs;
       LogSummary (totalModules st) (length (slowModules st)) secs avg] ∧
    length rows = min 10 (length (slowModules st)) ∧
    StronglySorted (λ a b, (b ≤ a)%Z) rows.*1 ∧
    (∀ m r, m ∈ slowModules st → head rows = Some r → (sm_time m ≤ r.1)%Z) ∧
    (∀ r, r ∈ rows →
          ∃ m, m ∈ slowModules st ∧ r = (sm_time m, getShortId p (sm_id m))) ∧
    length dirs ≤ 10.
Proof.
  intros Hne. destruct (slowModules st) as [|m0 ms] eqn:Hslow; [done|].
  rewrite (closeBundle_cons p st m0 ms Hslow), Hslow. cbn [snd].
  set (l := m0 :: ms).
  set (f := λ m, (sm_time m, getShortId p (sm_id m))).
  eexists _, _, _, _. split; [by rewrite sort_desc_length|].
  pose proof (sort_desc_sorted sm_time l) as Hsorted.
  pose proof (sort_desc_perm sm_time l) as Hperm.
  split_and!.
  - by rewrite length_fmap, length_take, sort_desc_length.
  - rewrite <-list_fmap_compose.
    apply (StronglySorted_fmap _ (descending sm_time)); [done|].
    by apply take_sorted.
  - intros m r Hm Hr. rewrite <-Hperm in Hm.
    destruct (sort_desc sm_time l) as [|y ys]; [by apply elem_of_nil in Hm|].
    cbn in Hr. injection Hr as <-. cbn [fst].
    apply StronglySorted_inv in Hsorted as [_ Hy].
    apply elem_of_cons in Hm as [->|Hm]; [done|].
    rewrite Forall_forall in Hy. by apply Hy.
  - intros r (m & -> & Hm)%list_elem_of_fmap.
    exists m. split; [|done]. rewrite <-Hperm. by apply (subseteq_take 10).
  - rewrite length_fmap, length_take. lia.
Qed.

Lemma report_slowest_witness :
  let st := exec posix [BuildStart 1; Transform "/src/a.ts" 1; Transform "/src/b.ts" 1;
                        ModuleParsed "/src/a.ts" 251 251;
                        ModuleParsed "/src/b.ts" 301 301] init in
  slowModules st ≠ [] ∧
  ∃ rows dirs secs avg,
    (closeBundle posix st).2 =
      [LogReportHeader; LogSlowest rows; LogDirStats dirs; LogSummary 2 2 secs avg] ∧
    length rows = 2.
Proof.
  assert (slowModules
            (exec posix [BuildStart 1; Transform "/src/a.ts" 1; Transform "/src/b.ts" 1;
                         ModuleParsed "/src/a.ts" 251 251;
                         ModuleParsed "/src/b.ts" 301 301] init) ≠ []) as Hne.
  { vm_compute. discriminate. }
  split; [exact Hne|].
  destruct (report_slowest posix _ Hne) as (rows & dirs & secs & avg & Hlog & Hlen & _).
  exists rows, dirs, secs, avg. split; [exact Hlog|exact Hlen].
Defined.

(** X23: the report keeps the order of slow modules that took the same time:
    among the entries of [slowModules] with a given time, the order after
    [closeBundle] is the order before. *)
Theorem report_keeps_ties p st t :
  filter (λ m, sm_time m = t) (slowModules (closeBundle p st).1) =
  filter (λ m, sm_time m = t) (slowModules st).
Proof.
  destruct (closeBundle_fields p st) as (_ & -> & _). apply sort_desc_stable.
Qed.

(** X24: while no completion has been recorded since the last [buildStart],
    the report says that there is no data and changes nothing. *)
Theorem report_without_completions p cs :
  let st := exec p cs init in
  processedModules st = 0 →
  closeBundle p st = (st, [LogReportHeader; LogNoData]).
Proof.
  intros st Hzero. apply closeBundle_empty.
  destruct (exec_consistent p cs init init_consistent) as [_ _ _ _ _ Hslow _].
  fold st in Hslow. destruct (slowModules st) as [|m ms]; [done|].
  assert (0 < processedModules st) by by apply Hslow. lia.
Qed.

Lemma report_without_completions_witness :
  let st := exec posix [BuildStart 1; Transform "/src/a.ts" 2;
                        ModuleParsed "/src/b.ts" 500 500] init in
  processedModules st = 0 ∧ closeBundle posix st = (st, [LogReportHeader; LogNoData]).
Proof.
  split; [reflexivity|].
  apply (report_without_completions posix
           [BuildStart 1; Transform "/src/a.ts" 2; ModuleParsed "/src/b.ts" 500 500]).
  reflexivity.
Defined.

(** ** A key that is built twice *)

Section Rebuild.
Variable p : platform.

End Rebuild.



(** X26: the starts of units whose keys are distinct and not yet known are
    each counted: [totalModules] goes up by their number, every one of them
    is pending with its own clock reading, and nothing is counted as
    completed. *)
Theorem distinct_starts_counted p (us : list timedUnit) st :
  NoDup (key_of p <$> us) →
  (∀ u, u ∈ us → key_of p u ∉ processedIds st) →
  let st' := exec p (start_of <$> us) st in
  totalModules st' = totalModules st + length us ∧
  (∀ u, u ∈ us → startTimes st' !! key_of p u = Some (u_start u)) ∧
  processedModules st' = processedModules st.
Proof.
  intros Hdup Hnew.
  destruct (starts_pending p us st Hdup Hnew) as [Htot Hpend].
  destruct (starts_frame p us st) as (_ & _ & Hproc & _).
  by split_and!.
Qed.

Lemma distinct_starts_counted_witness :
  NoDup (key_of posix <$> sample_units 5) ∧
  totalModules (exec posix (start_of <$> sample_units 5) init) = 5.
Proof.
  assert (NoDup (key_of posix <$> sample_units 5)) as Hdup.
  { apply (bool_decide_unpack _). vm_compute. exact I. }
  split; [exact Hdup|].
  refine (proj1 (distinct_starts_counted posix (sample_units 5) init Hdup _)).
  intros u _. apply not_elem_of_empty.
Defined.
